(** * Prompt pre-processor (src/utils/processors/pre-processor.ts)

    A shallow embedding of the directive table [processors] and of the
    resolution loop [preProcess], together with the JavaScript string and
    regular-expression primitives they call ([RegExp.prototype.exec] with the
    [g] flag, [String.prototype.replace] with a string pattern), and the
    properties of the engine proved over that embedding.

    Conventions of the model:
    - a JavaScript string is a [string]; one [ascii] stands for one code unit;
    - a promise that is awaited is a computation in the monad [M]: it reads
      and updates the state of the outside world (screen, agent database),
      and ends normally, by a thrown error, or not within the given fuel;
    - the loops of [preProcess] are written over any table of processors
      ([preProcessWith]); [preProcess] is their instance at [processors];
    - [Logger.debug] and [Logger.error] only log and are left out. *)

From Stdlib Require Import String Ascii List Arith Lia Bool.
Import ListNotations.

Local Open Scope list_scope.
Local Open Scope string_scope.

(* ================================================================== *)
(** ** JavaScript strings *)
(* ================================================================== *)

Module JsString.

(** [s.substring(n)] *)
Fixpoint skip (n : nat) (s : string) : string :=
  match n, s with
  | 0, _ => s
  | S _, EmptyString => EmptyString
  | S n', String _ s' => skip n' s'
  end.

(** [s.substring(0, n)] *)
Fixpoint take (n : nat) (s : string) : string :=
  match n, s with
  | 0, _ => EmptyString
  | S _, EmptyString => EmptyString
  | S n', String c s' => String c (take n' s')
  end.

(** [s.startsWith(p)] *)
Fixpoint startsWith (p s : string) : bool :=
  match p, s with
  | EmptyString, _ => true
  | String _ _, EmptyString => false
  | String a p', String b s' => Ascii.eqb a b && startsWith p' s'
  end.

(** [s.indexOf(p)], counted from [i] for the first position of [s]. *)
Fixpoint indexOf_from (i : nat) (s p : string) : option nat :=
  if startsWith p s then Some i
  else match s with
       | EmptyString => None
       | String _ s' => indexOf_from (S i) s' p
       end.

Definition indexOf (s p : string) : option nat := indexOf_from 0 s p.

(** Truthiness of a string value: only the empty string is falsy. *)
Definition truthy (s : string) : bool :=
  match s with EmptyString => false | String _ _ => true end.

(** The abstract operation GetSubstitution of ECMA-262 for a string search
    pattern: no captures and no named groups, so that the only replacement
    patterns are [$$], [$&], [$`] and [$']; every other character of the
    template, a [$] before anything else included, is copied. *)
Fixpoint GetSubstitution (matched str : string) (position : nat)
  (template : string) : string :=
  match template with
  | EmptyString => EmptyString
  | String c rest =>
      if Ascii.eqb c "$" then
        match rest with
        | EmptyString => String c EmptyString
        | String d rest' =>
            if Ascii.eqb d "$" then
              String "$" (GetSubstitution matched str position rest')
            else if Ascii.eqb d "&" then
              matched ++ GetSubstitution matched str position rest'
            else if Ascii.eqb d "`" then
              take position str ++ GetSubstitution matched str position rest'
            else if Ascii.eqb d "'" then
              skip (position + String.length matched) str
                ++ GetSubstitution matched str position rest'
            else String c (GetSubstitution matched str position rest)
        end
      else String c (GetSubstitution matched str position rest)
  end.

(** [s.replace(searchString, replaceValue)] with two strings: the first
    occurrence of [searchString] is replaced by the expansion of
    [replaceValue]; without an occurrence the string is returned as it is. *)
Definition replace (s searchString replaceValue : string) : string :=
  match indexOf s searchString with
  | None => s
  | Some pos =>
      take pos s
        ++ GetSubstitution searchString s pos replaceValue
        ++ skip (pos + String.length searchString) s
  end.

(** The template holds none of the replacement patterns [$$], [$&], [$`]
    and [$']. *)
Fixpoint pattern_free (template : string) : bool :=
  match template with
  | EmptyString => true
  | String c rest =>
      (if Ascii.eqb c "$" then
         match rest with
         | EmptyString => true
         | String d _ =>
             negb (Ascii.eqb d "$" || Ascii.eqb d "&"
                   || Ascii.eqb d "`" || Ascii.eqb d "'")
         end
       else true)
      && pattern_free rest
  end.

(** No code unit of [s] is a dollar sign. *)
Fixpoint dollar_free (s : string) : bool :=
  match s with
  | EmptyString => true
  | String c s' => negb (Ascii.eqb c "$") && dollar_free s'
  end.

End JsString.

(* ================================================================== *)
(** ** Regular expressions of the directive table *)
(* ================================================================== *)

Module JsRegExp.
Import JsString.

Definition in_range (lo hi : nat) (c : ascii) : bool :=
  Nat.leb lo (nat_of_ascii c) && Nat.leb (nat_of_ascii c) hi.

Definition is_upper : ascii -> bool := in_range 65 90.
Definition is_lower : ascii -> bool := in_range 97 122.
Definition is_digit : ascii -> bool := in_range 48 57.

(** The class [[a-zA-Z0-9_]] *)
Definition identifier_class (c : ascii) : bool :=
  is_lower c || is_upper c || is_digit c || Ascii.eqb c "_".

(** The class [[A-Za-z0-9+/=]] *)
Definition base64_class (c : ascii) : bool :=
  is_upper c || is_lower c || is_digit c
  || Ascii.eqb c "+" || Ascii.eqb c "/" || Ascii.eqb c "=".

(** The patterns of the table have one shape: a literal, then at most one
    capturing group [([class]+)] that ends the pattern. *)
Record RegExp := {
  literal : string;
  group : option (ascii -> bool)
}.

(** What [exec] returns on a match: [match[0]], the captures [match[1]],
    ..., [match.index] and [match.input]. *)
Record RegExpExecArray := {
  matched : string;
  captures : list string;
  index : nat;
  input : string
}.

(** [match[1]]; [undefined] is rendered by the empty string, which a
    [+] group never captures. *)
Definition capture1 (m : RegExpExecArray) : string :=
  nth 0 (captures m) EmptyString.

(** The longest prefix of [s] made of characters of [cls]: what a greedy
    [[cls]*] consumes. *)
Fixpoint span (cls : ascii -> bool) (s : string) : string :=
  match s with
  | EmptyString => EmptyString
  | String c s' => if cls c then String c (span cls s') else EmptyString
  end.

(** A match of [re] that starts at the first position of [s]. *)
Definition match_here (re : RegExp) (s : string)
  : option (string * list string) :=
  if startsWith (literal re) s then
    match group re with
    | None => Some (literal re, [])
    | Some cls =>
        let g := span cls (skip (String.length (literal re)) s) in
        if truthy g then Some (literal re ++ g, [g]) else None
    end
  else None.

(** The leftmost match in [s], whose first position counts as [i]. *)
Fixpoint search (re : RegExp) (i : nat) (s : string)
  : option (nat * (string * list string)) :=
  match match_here re s with
  | Some m => Some (i, m)
  | None =>
      match s with
      | EmptyString => None
      | String _ s' => search re (S i) s'
      end
  end.

(** [re.exec(str)] for a pattern with the [g] flag whose [lastIndex] is
    [lastIndex]: the match, if any, and the new value of [lastIndex]. *)
Definition exec (re : RegExp) (lastIndex : nat) (str : string)
  : option RegExpExecArray * nat :=
  if Nat.ltb (String.length str) lastIndex then (None, 0)
  else
    match search re lastIndex (skip lastIndex str) with
    | Some (i, (m0, caps)) =>
        (Some {| matched := m0; captures := caps; index := i; input := str |},
         i + String.length m0)
    | None => (None, 0)
    end.

(** [re] matches somewhere in [s]. *)
Definition occurs (re : RegExp) (s : string) : bool :=
  match search re 0 s with Some _ => true | None => false end.

(** [/^[cls]+$/.test(s)]: the greedy run of [cls] from the start has to be
    non-empty and to reach the end of the input; a shorter run cannot reach
    it either. *)
Definition test_anchored_plus (cls : ascii -> bool) (s : string) : bool :=
  let run := span cls s in
  truthy run && Nat.eqb (String.length run) (String.length s).

End JsRegExp.

(* ================================================================== *)
(** ** Awaited computations *)
(* ================================================================== *)

Module Effects.

(** A thrown value, by its message. *)
Definition JsError := string.

(** How an awaited computation ends from a state of the world: with a value,
    with a thrown error (a rejected promise), or not within the fuel it was
    given. The effects on the world are kept in the first two cases. *)
Inductive Outcome (W A : Type) : Type :=
| Normal (a : A) (w : W)
| Throw (e : JsError) (w : W)
| Timeout.

Arguments Normal {W A} a w.
Arguments Throw {W A} e w.
Arguments Timeout {W A}.

Definition M (W A : Type) : Type := W -> Outcome W A.

Definition ret {W A} (a : A) : M W A := fun w => Normal a w.

Definition throw {W A} (e : JsError) : M W A := fun w => Throw e w.

Definition timeout {W A} : M W A := fun _ => Timeout.

Definition bind {W A B} (c : M W A) (k : A -> M W B) : M W B :=
  fun w =>
    match c w with
    | Normal a w' => k a w'
    | Throw e w' => Throw e w'
    | Timeout => Timeout
    end.

(** [try { body } catch (error) { handler }] *)
Definition try_catch {W A} (body : M W A) (handler : JsError -> M W A)
  : M W A :=
  fun w =>
    match body w with
    | Normal a w' => Normal a w'
    | Throw e w' => handler e w'
    | Timeout => Timeout
    end.

Declare Scope js_scope.
Delimit Scope js_scope with js.
Notation "x <- c ;; k" := (bind c (fun x => k))
  (at level 61, c at next level, right associativity) : js_scope.

End Effects.

(* ================================================================== *)
(** ** The directive table and the engine *)
(* ================================================================== *)

Module PreProcessor.
Import JsString JsRegExp Effects.
Local Open Scope js_scope.

(** [interface PreProcessorResult]; [images] is an optional property. *)
Record PreProcessorResult := {
  modifiedPrompt : string;
  images : option (list string)
}.

(** What a [ProcessorFunction] resolves to; both properties are optional. *)
Module ProcessorResult.
Record t := {
  replacementText : option string;
  images : option (list string)
}.
End ProcessorResult.

(** The object [captureFrameAndOCR] resolves to. *)
Record OCRResult := {
  success : bool;
  text : option string;
  error : option string
}.

(** [result.images || []] *)
Definition images_or_empty (imgs : option (list string)) : list string :=
  match imgs with Some l => l | None => [] end.

(** Truthiness of a value that is a string, [undefined] or [null]. *)
Definition truthy_value (v : option string) : bool :=
  match v with Some s => truthy s | None => false end.

Section Engine.

(** The state of the world outside the engine. *)
Variable W : Type.

(** The imported capability providers. [startScreenCapture] is given by the
    truthiness of the stream it resolves to. *)
Record Providers := {
  startScreenCapture : M W bool;
  captureFrameAndOCR : M W OCRResult;
  captureScreenImage : M W (option string);
  getAgentMemory : string -> M W string
}.

Definition ProcessorFunction : Type :=
  string -> string -> RegExpExecArray -> M W ProcessorResult.t.

Record Processor := {
  regex : RegExp;
  handler : ProcessorFunction
}.

Definition replaceWith (s : string) : ProcessorResult.t :=
  {| ProcessorResult.replacementText := Some s;
     ProcessorResult.images := None |}.

Section Table.

Variable env : Providers.

Definition SCREEN_OCR_handler : ProcessorFunction :=
  fun agentId _ _ =>
    try_catch
      (stream <- startScreenCapture env ;;
       if negb stream then throw "Failed to start screen capture"
       else
         ocrResult <- captureFrameAndOCR env ;;
         if success ocrResult && truthy_value (text ocrResult) then
           ret {| ProcessorResult.replacementText := text ocrResult;
                  ProcessorResult.images := None |}
         else ret (replaceWith "[Error performing OCR]"))
      (fun _ => ret (replaceWith "[Error with screen capture]")).

Definition MEMORY_handler : ProcessorFunction :=
  fun _agentId _prompt match_ =>
    try_catch
      (let referencedAgentId := capture1 match_ in
       memory <- getAgentMemory env referencedAgentId ;;
       ret (replaceWith memory))
      (fun _ => ret (replaceWith "[Error with memory retrieval]")).

Definition SCREEN_64_handler : ProcessorFunction :=
  fun agentId _ _ =>
    try_catch
      (stream <- startScreenCapture env ;;
       if negb stream then throw "Failed to start screen capture"
       else
         base64Image <- captureScreenImage env ;;
         match base64Image with
         | Some image =>
             if truthy image then
               if negb (test_anchored_plus base64_class image) then
                 ret (replaceWith "[Error: Invalid image data]")
               else
                 ret {| ProcessorResult.replacementText := Some "";
                        ProcessorResult.images := Some [image] |}
             else ret (replaceWith "[Error capturing screen]")
         | None => ret (replaceWith "[Error capturing screen]")
         end)
      (fun _ => ret (replaceWith "[Error with screen capture]")).

Definition SCREEN_OCR : Processor :=
  {| regex := {| literal := "$SCREEN_OCR"; group := None |};
     handler := SCREEN_OCR_handler |}.

Definition MEMORY : Processor :=
  {| regex := {| literal := "$MEMORY@"; group := Some identifier_class |};
     handler := MEMORY_handler |}.

Definition SCREEN_64 : Processor :=
  {| regex := {| literal := "$SCREEN_64"; group := None |};
     handler := SCREEN_64_handler |}.

(** [Object.entries(processors)]: the keys in insertion order. *)
Definition processors : list (string * Processor) :=
  [ ("SCREEN_OCR", SCREEN_OCR); ("MEMORY", MEMORY); ("SCREEN_64", SCREEN_64) ].

End Table.

(** The variables the loops of [preProcess] update: the local
    [modifiedPrompt], [processor.regex.lastIndex] and [result.images]. *)
Record LoopState := {
  working : string;
  lastIndex : nat;
  collected : option (list string)
}.

(** The two updates after the handler has resolved. *)
Definition apply_result (st : LoopState) (placeholder : string)
  (lastIndex' : nat) (r : ProcessorResult.t) : LoopState :=
  let '(prompt, li) :=
    match ProcessorResult.replacementText r with
    | Some replacement => (replace (working st) placeholder replacement, 0)
    | None => (working st, lastIndex')
    end in
  let imgs :=
    match ProcessorResult.images r with
    | Some ((_ :: _) as new) =>
        Some (images_or_empty (collected st) ++ new)%list
    | _ => collected st
    end in
  {| working := prompt; lastIndex := li; collected := imgs |}.

(** One turn of the [while] loop, for the match [match_] that [exec] found
    and the value [lastIndex'] it left in the pattern. *)
Definition iteration (p : Processor) (agentId : string) (st : LoopState)
  (match_ : RegExpExecArray) (lastIndex' : nat) : M W LoopState :=
  let placeholder := matched match_ in
  processorResult <- handler p agentId (working st) match_ ;;
  ret (apply_result st placeholder lastIndex' processorResult).

(** The [while] loop of one processor; [fuel] bounds the number of turns. *)
Fixpoint drain (fuel : nat) (p : Processor) (agentId : string)
  (st : LoopState) : M W LoopState :=
  match exec (regex p) (lastIndex st) (working st) with
  | (None, lastIndex') =>
      ret {| working := working st; lastIndex := lastIndex';
             collected := collected st |}
  | (Some match_, lastIndex') =>
      match fuel with
      | 0 => timeout
      | S fuel' =>
          st' <- iteration p agentId st match_ lastIndex' ;;
          drain fuel' p agentId st'
      end
  end.

(** The [for] loop over the entries of the table. The pattern of the
    processor at hand is the only one whose [lastIndex] is read. *)
Fixpoint for_each (fuel : nat) (table : list (string * Processor))
  (agentId : string) (st : LoopState) : M W LoopState :=
  match table with
  | [] => ret st
  | (_, processor) :: rest =>
      st' <- drain fuel processor agentId
               {| working := working st; lastIndex := 0;
                  collected := collected st |} ;;
      for_each fuel rest agentId st'
  end.

(** The body of the [try] block of [preProcess]. *)
Definition preProcess_try (fuel : nat) (table : list (string * Processor))
  (agentId systemPrompt : string) : M W PreProcessorResult :=
  let modifiedPrompt := systemPrompt in
  st <- for_each fuel table agentId
          {| working := modifiedPrompt; lastIndex := 0;
             collected := Some [] |} ;;
  ret {| modifiedPrompt := working st; images := collected st |}.

(** [preProcess] over a table of processors. *)
Definition preProcessWith (fuel : nat) (table : list (string * Processor))
  (agentId systemPrompt : string) : M W PreProcessorResult :=
  try_catch (preProcess_try fuel table agentId systemPrompt)
    (fun _ => ret {| modifiedPrompt := systemPrompt; images := None |}).

(** [preProcess]: the engine over the table [processors]. *)
Definition preProcess (env : Providers) (fuel : nat)
  (agentId systemPrompt : string) : M W PreProcessorResult :=
  preProcessWith fuel (processors env) agentId systemPrompt.

End Engine.

Arguments startScreenCapture {W}.
Arguments captureFrameAndOCR {W}.
Arguments captureScreenImage {W}.
Arguments getAgentMemory {W}.
Arguments regex {W}.
Arguments handler {W}.
Arguments SCREEN_OCR_handler {W}.
Arguments MEMORY_handler {W}.
Arguments SCREEN_64_handler {W}.
Arguments SCREEN_OCR {W}.
Arguments MEMORY {W}.
Arguments SCREEN_64 {W}.
Arguments processors {W}.
Arguments apply_result : simpl never.
Arguments iteration {W}.
Arguments drain {W}.
Arguments for_each {W}.
Arguments preProcess_try {W}.
Arguments preProcessWith {W}.
Arguments preProcess {W}.

End PreProcessor.

(* ================================================================== *)
(** ** Vocabulary of the properties *)
(* ================================================================== *)

Module Properties.
Import JsString JsRegExp Effects PreProcessor.

(** The explicit alphabet of the class [[A-Za-z0-9+/=]]. *)
Definition base64_alphabet : string :=
  "ABCDEFGHIJKLMNOPQRSTUVWXYZabcdefghijklmnopqrstuvwxyz0123456789+/=".

(** Every character of [s] is one of [alphabet]. *)
Definition composed_of (alphabet s : string) : Prop :=
  forall c, In c (list_ascii_of_string s) ->
            In c (list_ascii_of_string alphabet).

(** The explicit alphabet of the class [[a-zA-Z0-9_]]. *)
Definition identifier_alphabet : string :=
  "abcdefghijklmnopqrstuvwxyzABCDEFGHIJKLMNOPQRSTUVWXYZ0123456789_".

(** [sub] is a substring of [s]. *)
Definition contains (s sub : string) : Prop :=
  exists pre post, s = pre ++ sub ++ post.

(** [s] holds [$MEMORY@] followed by an identifier character. *)
Definition contains_memory_marker (s : string) : Prop :=
  exists pre c post,
    s = pre ++ "$MEMORY@" ++ String c post /\
    In c (list_ascii_of_string identifier_alphabet).

(** The patterns of the three directives, in the order of the table. *)
Definition directive_patterns : list RegExp :=
  [ {| literal := "$SCREEN_OCR"; group := None |};
    {| literal := "$MEMORY@"; group := Some identifier_class |};
    {| literal := "$SCREEN_64"; group := None |} ].

(** No directive pattern has an occurrence in [s]. *)
Definition marker_free (s : string) : bool :=
  forallb (fun re => negb (occurs re s)) directive_patterns.

(** The reading of "[images] is never undefined" that includes the
    rollback path: whatever the table, a returned result has its [images]. *)
Definition images_always_defined : Prop :=
  forall (W : Type) (table : list (string * Processor W)) (fuel : nat)
         (agentId systemPrompt : string) (w w' : W) (r : PreProcessorResult),
    preProcessWith fuel table agentId systemPrompt w = Normal r w' ->
    images r <> None.

(** Properties of the resolver of a processor that the loops rely on. *)
Definition never_throws {W : Type} (p : Processor W) : Prop :=
  forall agentId prompt m w e w',
    handler p agentId prompt m w <> Throw e w'.

Definition always_replaces {W : Type} (p : Processor W) : Prop :=
  forall agentId prompt m w r w',
    handler p agentId prompt m w = Normal r w' ->
    ProcessorResult.replacementText r <> None.

Definition attaches_nothing {W : Type} (p : Processor W) : Prop :=
  forall agentId prompt m w r w',
    handler p agentId prompt m w = Normal r w' ->
    ProcessorResult.images r = None.

(** Every capture of a still image ends without a usable image. *)
Definition capture_always_fails {W : Type} (env : Providers W) : Prop :=
  forall w v w', captureScreenImage env w = Normal v w' ->
                 truthy_value v = false.

(** Every OCR resolution succeeds with the text [T]. *)
Definition ocr_always_reads {W : Type} (env : Providers W) (T : string)
  : Prop :=
  (forall w, exists w', startScreenCapture env w = Normal true w') /\
  (forall w, exists err w',
     captureFrameAndOCR env w
     = Normal {| success := true; text := Some T; error := err |} w').

(** The reading of "each occurrence of [$SCREEN_OCR] is replaced with [T]
    exactly once": a template is the pieces of text around its occurrences
    joined by the marker, and the result is the same pieces joined by [T]. *)
Definition ocr_once_per_occurrence : Prop :=
  forall (W : Type) (env : Providers W) (fuel : nat) (agentId : string)
         (segs : list string) (T : string) (w w' : W)
         (r : PreProcessorResult),
    2 <= List.length segs ->
    (forall seg, In seg segs ->
       occurs {| literal := "$SCREEN_OCR"; group := None |} seg = false) ->
    truthy T = true ->
    ocr_always_reads env T ->
    preProcess env fuel agentId (String.concat "$SCREEN_OCR" segs) w
    = Normal r w' ->
    modifiedPrompt r = String.concat T segs.

Ltac run_handler :=
  unfold SCREEN_64_handler, SCREEN_OCR_handler, MEMORY_handler,
    try_catch, bind, ret, throw.

End Properties.

(* ================================================================== *)
(** ** Concrete worlds *)
(* ================================================================== *)

Module Scenarios.
Import JsString JsRegExp Effects PreProcessor.

(** The world as the number of provider calls made so far. *)
Definition tick {A} (a : A) : M nat A := fun n => Normal a (S n).

Definition tick_throw {A} (e : JsError) : M nat A := fun n => Throw e (S n).

(** Providers that answer every call the same way: the truthiness of the
    stream, the OCR result, the captured image, and the memory of each
    agent ([None] for a failing lookup). *)
Definition providers_of (stream : bool) (ocr : OCRResult)
  (image : option string) (memory : string -> option string)
  : Providers nat :=
  {| startScreenCapture := tick stream;
     captureFrameAndOCR := tick ocr;
     captureScreenImage := tick image;
     getAgentMemory := fun id =>
       match memory id with
       | Some m => tick m
       | None => tick_throw "agent not found"
       end |}.

Definition ocr_text (t : string) : OCRResult :=
  {| success := true; text := Some t; error := None |}.

Definition ocr_failed : OCRResult :=
  {| success := false; text := None; error := Some "no frame" |}.

(** A table with a resolver that throws outside any error wrapper. *)
Definition FAULT : Processor nat :=
  {| regex := {| literal := "$FAULT"; group := None |};
     handler := fun _ _ _ => throw "resolver fault" |}.

Definition faulty_table (env : Providers nat)
  : list (string * Processor nat) :=
  [ ("SCREEN_64", SCREEN_64 env); ("FAULT", FAULT) ].

(** A database with the memory of one agent. *)
Definition memory_of (agent blob : string) (id : string) : option string :=
  if String.eqb id agent then Some blob else None.

Definition match_at (placeholder : string) (i : nat) (s : string)
  : RegExpExecArray :=
  {| matched := placeholder; captures := []; index := i; input := s |}.

End Scenarios.

(* ================================================================== *)
(** ** Further vocabulary for the engine *)
(* ================================================================== *)

Module EngineVocabulary.
Import JsString JsRegExp Effects PreProcessor.

(** The number of dollar signs of [s]. *)
Fixpoint count_dollar (s : string) : nat :=
  match s with
  | EmptyString => 0
  | String c s' => (if Ascii.eqb c "$" then 1 else 0) + count_dollar s'
  end.

(** No provider call stays pending for ever. *)
Definition never_hangs {W : Type} (env : Providers W) : Prop :=
  (forall w, startScreenCapture env w <> Timeout) /\
  (forall w, captureFrameAndOCR env w <> Timeout) /\
  (forall w, captureScreenImage env w <> Timeout) /\
  (forall id w, getAgentMemory env id w <> Timeout).

(** The texts that the OCR and the agent database give hold no dollar
    sign. *)
Definition texts_dollar_free {W : Type} (env : Providers W) : Prop :=
  (forall w r w' t,
     captureFrameAndOCR env w = Normal r w' -> text r = Some t ->
     dollar_free t = true) /\
  (forall id w memory w',
     getAgentMemory env id w = Normal memory w' ->
     dollar_free memory = true).

(** From the world [w], the successive captures give the images [imgs],
    each one passing the validation, and leave the world [w']. *)
Fixpoint captures_in_order {W : Type} (env : Providers W)
  (imgs : list string) (w w' : W) : Prop :=
  match imgs with
  | [] => w = w'
  | image :: rest =>
      exists w1 w2,
        startScreenCapture env w = Normal true w1 /\
        captureScreenImage env w1 = Normal (Some image) w2 /\
        test_anchored_plus base64_class image = true /\
        captures_in_order env rest w2 w'
  end.

(** The providers [env] with another OCR. *)
Definition with_ocr {W : Type} (env : Providers W) (ocr : M W OCRResult)
  : Providers W :=
  {| startScreenCapture := startScreenCapture env;
     captureFrameAndOCR := ocr;
     captureScreenImage := captureScreenImage env;
     getAgentMemory := getAgentMemory env |}.


(** A screen whose captures give the images of a roll, one after the
    other, and nothing once the roll is used up. *)
Definition camera_roll : Providers (list string) :=
  {| startScreenCapture := ret true;
     captureFrameAndOCR :=
       ret {| success := false; text := None; error := None |};
     captureScreenImage := fun roll =>
       match roll with
       | [] => Normal None []
       | image :: rest => Normal (Some image) rest
       end;
     getAgentMemory := fun _ => throw "agent not found" |}.

(** A processor that attaches an image and leaves its marker in place. *)
Definition STAMP : Processor nat :=
  {| regex := {| literal := "$STAMP"; group := None |};
     handler := fun _ _ _ n =>
       Normal {| ProcessorResult.replacementText := None;
                 ProcessorResult.images := Some ["AAAA"] |} (S n) |}.

End EngineVocabulary.

(* ================================================================== *)
(** ** Patterns with anchors and quantifiers *)
(* ================================================================== *)

(** The patterns of the components that show and parse the generated agent
    are sequences of anchors, groups, and single characters or character
    classes with a greedy quantifier. They are matched the way ECMA-262
    prescribes: from left to right, a quantifier taking as many characters
    as it can and giving them back one at a time when what follows does not
    match. *)

Module JsPattern.
Import JsString JsRegExp.

Definition is_line_terminator (c : ascii) : bool :=
  Nat.eqb (nat_of_ascii c) 10 || Nat.eqb (nat_of_ascii c) 13.

(** The white space and line terminators among the first 256 code units:
    what [\s] matches and what [trim] strips. *)
Definition is_white_space (c : ascii) : bool :=
  in_range 9 13 c || Nat.eqb (nat_of_ascii c) 32
  || Nat.eqb (nat_of_ascii c) 160.

(** What [.] matches. *)
Definition is_dot (c : ascii) : bool := negb (is_line_terminator c).

(** The class [[a-z_]] *)
Definition is_key_char (c : ascii) : bool := is_lower c || Ascii.eqb c "_".

Inductive Quantifier : Type := One | Star | Plus | Opt.

Inductive Term : Type :=
| Bol
| Eol
| Atom (cls : ascii -> bool) (q : Quantifier)
| Open
| Close.

Record Pattern := {
  terms : list Term;
  multiline : bool
}.

(** The terms of a literal. *)
Fixpoint lit (s : string) : list Term :=
  match s with
  | EmptyString => []
  | String c s' => Atom (Ascii.eqb c) One :: lit s'
  end.

(** What has been matched so far: the whole match, the groups that are
    closed, and the group that is open. *)
Record Acc := {
  whole : string;
  closed : list string;
  current : option string
}.

Definition start_acc : Acc :=
  {| whole := ""; closed := []; current := None |}.

Definition push (c : ascii) (a : Acc) : Acc :=
  {| whole := whole a ++ String c "";
     closed := closed a;
     current := match current a with
                | Some g => Some (g ++ String c "")
                | None => None
                end |}.

Definition open_group (a : Acc) : Acc :=
  {| whole := whole a; closed := closed a; current := Some "" |}.

Definition close_group (a : Acc) : Acc :=
  {| whole := whole a;
     closed := (closed a
                ++ [match current a with Some g => g | None => "" end])%list;
     current := None |}.

(** [^]: at the start of the input or, with the [m] flag, after a line
    terminator. [prev] is the character before the position. *)
Definition at_bol (ml : bool) (prev : option ascii) : bool :=
  match prev with
  | None => true
  | Some c => ml && is_line_terminator c
  end.

(** [$]: at the end of the input or, with the [m] flag, before a line
    terminator. *)
Definition at_eol (ml : bool) (s : string) : bool :=
  match s with
  | EmptyString => true
  | String c _ => ml && is_line_terminator c
  end.

(** A greedy run of [cls] followed by the continuation [k]. *)
Fixpoint greedy (cls : ascii -> bool)
  (k : option ascii -> string -> Acc -> option (string * list string))
  (prev : option ascii) (s : string) (a : Acc)
  : option (string * list string) :=
  match s with
  | String c s' =>
      if cls c then
        match greedy cls k (Some c) s' (push c a) with
        | Some r => Some r
        | None => k prev s a
        end
      else k prev s a
  | EmptyString => k prev s a
  end.

(** The match of the terms [ts] that starts at the first position of [s]:
    the text of the match and of its groups. *)
Fixpoint run (ts : list Term) (ml : bool) (prev : option ascii)
  (s : string) (a : Acc) {struct ts} : option (string * list string) :=
  match ts with
  | [] => Some (whole a, closed a)
  | Bol :: ts' => if at_bol ml prev then run ts' ml prev s a else None
  | Eol :: ts' => if at_eol ml s then run ts' ml prev s a else None
  | Open :: ts' => run ts' ml prev s (open_group a)
  | Close :: ts' => run ts' ml prev s (close_group a)
  | Atom cls One :: ts' =>
      match s with
      | String c s' =>
          if cls c then run ts' ml (Some c) s' (push c a) else None
      | EmptyString => None
      end
  | Atom cls Star :: ts' => greedy cls (run ts' ml) prev s a
  | Atom cls Plus :: ts' =>
      match s with
      | String c s' =>
          if cls c then greedy cls (run ts' ml) (Some c) s' (push c a)
          else None
      | EmptyString => None
      end
  | Atom cls Opt :: ts' =>
      match s with
      | String c s' =>
          if cls c then
            match run ts' ml (Some c) s' (push c a) with
            | Some r => Some r
            | None => run ts' ml prev s a
            end
          else run ts' ml prev s a
      | EmptyString => run ts' ml prev s a
      end
  end.

(** The leftmost match in [s], whose first position counts as [i] and comes
    after the character [prev]. *)
Fixpoint find (p : Pattern) (prev : option ascii) (i : nat) (s : string)
  : option (nat * (string * list string)) :=
  match run (terms p) (multiline p) prev s start_acc with
  | Some r => Some (i, r)
  | None =>
      match s with
      | EmptyString => None
      | String c s' => find p (Some c) (S i) s'
      end
  end.

(** [str.match(p)] for a pattern without the [g] flag. *)
Definition match_pattern (p : Pattern) (str : string)
  : option RegExpExecArray :=
  match find p None 0 str with
  | Some (i, (m0, caps)) =>
      Some {| matched := m0; captures := caps; index := i; input := str |}
  | None => None
  end.

(** [match[2]] *)
Definition capture2 (m : RegExpExecArray) : string :=
  nth 1 (captures m) EmptyString.

(** [s.trimStart()] *)
Fixpoint trimStart (s : string) : string :=
  match s with
  | EmptyString => EmptyString
  | String c s' => if is_white_space c then trimStart s' else s
  end.

(** [s.trimEnd()] *)
Fixpoint trimEnd (s : string) : string :=
  match s with
  | EmptyString => EmptyString
  | String c s' =>
      match trimEnd s' with
      | EmptyString => if is_white_space c then EmptyString
                       else String c EmptyString
      | t => String c t
      end
  end.

(** [s.trim()] *)
Definition trim (s : string) : string := trimEnd (trimStart s).

(** [s.substring(a, b)]: both positions are brought into the string, and
    taken in increasing order. *)
Definition substring (a b : nat) (s : string) : string :=
  let a' := Nat.min a (String.length s) in
  let b' := Nat.min b (String.length s) in
  take (Nat.max a' b' - Nat.min a' b') (skip (Nat.min a' b') s).

(** [s.split(sep)] for a separator of one character. *)
Fixpoint split (sep : ascii) (s : string) : list string :=
  match s with
  | EmptyString => [EmptyString]
  | String c s' =>
      if Ascii.eqb c sep then EmptyString :: split sep s'
      else match split sep s' with
           | piece :: pieces => String c piece :: pieces
           | [] => [String c EmptyString]
           end
  end.

(** [s.includes(c)] for a string of one character. *)
Fixpoint includes (c : ascii) (s : string) : bool :=
  match s with
  | EmptyString => false
  | String d s' => Ascii.eqb d c || includes c s'
  end.

End JsPattern.

(* ================================================================== *)
(** ** Parsing and showing a generated agent (GenerateAgent.tsx) *)
(* ================================================================== *)

Module GenerateAgent.
Import JsString JsRegExp JsPattern.

(** [/^key\s*(.+)$/m], for the keys [id:], [name:], [description:] and
    [model_name:]. *)
Definition field_line (key : string) : Pattern :=
  {| terms := Bol :: lit key
                ++ [Atom is_white_space Star;
                    Open; Atom is_dot Plus; Close; Eol];
     multiline := true |}.

(** The pattern of the line [loop_interval_seconds:], with the [m] flag:
    after the key and white space, the group holds digits, an optional dot
    and digits again, up to the end of the line. *)
Definition interval_line : Pattern :=
  {| terms := Bol :: lit "loop_interval_seconds:"
                ++ [Atom is_white_space Star;
                    Open; Atom is_digit Plus; Atom (Ascii.eqb ".") Opt;
                    Atom is_digit Star; Close; Eol];
     multiline := true |}.

(** [/^([a-z_]+):\s*(.+)$/] *)
Definition key_value_line : Pattern :=
  {| terms := [Bol; Open; Atom is_key_char Plus; Close;
               Atom (Ascii.eqb ":") One; Atom is_white_space Star;
               Open; Atom is_dot Plus; Close; Eol];
     multiline := false |}.

(** [/^([a-z_]+):\s*\|$/] *)
Definition section_line : Pattern :=
  {| terms := [Bol; Open; Atom is_key_char Plus; Close;
               Atom (Ascii.eqb ":") One; Atom is_white_space Star;
               Atom (Ascii.eqb "|") One; Eol];
     multiline := false |}.

(** The agent that [parseAgentResponse] builds. *)
Record CompleteAgent (Number : Type) := {
  id : string;
  name : string;
  description : string;
  status : string;
  model_name : string;
  system_prompt : string;
  loop_interval_seconds : Number
}.

Arguments id {Number}.
Arguments name {Number}.
Arguments description {Number}.
Arguments status {Number}.
Arguments model_name {Number}.
Arguments system_prompt {Number}.
Arguments loop_interval_seconds {Number}.

Section Parse.

(** JavaScript numbers and [parseFloat]. *)
Variable Number : Type.
Variable parseFloat : string -> Number.

Definition parseAgentResponse (responseText : string)
  : option (CompleteAgent Number * string) :=
  match indexOf responseText "system_prompt: |",
        indexOf responseText "code: |",
        indexOf responseText "memory: " with
  | Some systemPromptStart, Some codeStart, Some memoryStart =>
      let idMatch := match_pattern (field_line "id:") responseText in
      let nameMatch := match_pattern (field_line "name:") responseText in
      let descriptionMatch :=
        match_pattern (field_line "description:") responseText in
      let modelMatch :=
        match_pattern (field_line "model_name:") responseText in
      let intervalMatch := match_pattern interval_line responseText in
      match idMatch, nameMatch, modelMatch, intervalMatch with
      | Some idMatch, Some nameMatch, Some modelMatch, Some intervalMatch =>
          let systemPromptSection :=
            trim (substring
                    (systemPromptStart + String.length "system_prompt: |")
                    codeStart responseText) in
          let codeSection :=
            trim (substring (codeStart + String.length "code: |")
                    memoryStart responseText) in
          Some ({| id := trim (capture1 idMatch);
                   name := trim (capture1 nameMatch);
                   description :=
                     match descriptionMatch with
                     | Some descriptionMatch =>
                         trim (capture1 descriptionMatch)
                     | None => ""
                     end;
                   status := "stopped";
                   model_name := trim (capture1 modelMatch);
                   system_prompt := systemPromptSection;
                   loop_interval_seconds :=
                     parseFloat (capture1 intervalMatch) |},
                codeSection)
      | _, _, _, _ => None
      end
  | _, _, _ => None
  end.

End Parse.

Arguments parseAgentResponse {Number}.

(** What [formatAgentFile] shows for a line: a key beside its value, the
    heading of a section, a spacer, or the line as it is. *)
Inductive Row : Type :=
| KeyValueRow (key value : string)
| SectionRow (key : string)
| SpacerRow
| ContentRow (line : string).

Definition formatLine (line : string) : Row :=
  match match_pattern key_value_line line with
  | Some keyValueMatch =>
      if Nat.leb 3 (S (List.length (captures keyValueMatch))) then
        KeyValueRow (capture1 keyValueMatch) (capture2 keyValueMatch)
      else ContentRow line
  | None =>
      match match_pattern section_line line with
      | Some sectionMatch =>
          if Nat.leb 2 (S (List.length (captures sectionMatch))) then
            SectionRow (capture1 sectionMatch)
          else ContentRow line
      | None =>
          if String.eqb (trim line) "" then SpacerRow else ContentRow line
      end
  end.

Definition newline : ascii := ascii_of_nat 10.

Definition formatAgentFile (content : string) : list Row :=
  map formatLine (split newline content).

(** The fake streaming of [handleSubmit]: the variables that the callback
    of [setInterval] reads and writes, and whether the interval is still
    set. *)
Record Streaming := {
  currentIndex : nat;
  visibleResponse : string;
  isFakeStreaming : bool;
  interval_set : bool
}.

Definition streamingSpeed : nat := 15.

(** The state when the interval is set. *)
Definition streaming_start : Streaming :=
  {| currentIndex := 0; visibleResponse := ""; isFakeStreaming := true;
     interval_set := true |}.

(** The callback of the interval. *)
Definition stream_tick (response : string) (st : Streaming) : Streaming :=
  let currentIndex := currentIndex st + streamingSpeed in
  if Nat.leb (String.length response) currentIndex then
    {| currentIndex := currentIndex; visibleResponse := response;
       isFakeStreaming := false; interval_set := false |}
  else
    {| currentIndex := currentIndex;
       visibleResponse := substring 0 currentIndex response;
       isFakeStreaming := isFakeStreaming st; interval_set := true |}.

(** [n] periods of the timer: the callback runs while the interval is
    set. *)
Fixpoint stream_ticks (response : string) (n : nat) (st : Streaming)
  : Streaming :=
  match n with
  | 0 => st
  | S n' =>
      if interval_set st then stream_ticks response n' (stream_tick response st)
      else st
  end.

Definition nl : string := String newline EmptyString.

(** The lines of the single-line fields of an agent. *)
Definition response_head (i n d m seconds : string) : string :=
  "id: " ++ i ++ nl ++ "name: " ++ n ++ nl ++ "description: " ++ d ++ nl
  ++ "model_name: " ++ m ++ nl
  ++ "loop_interval_seconds: " ++ seconds ++ nl.

(** A response that has the lines of an agent one after the other. *)
Definition canonical_response (head sp code memory : string) : string :=
  head ++ "system_prompt: |" ++ nl ++ sp ++ nl
  ++ "code: |" ++ nl ++ code ++ nl ++ "memory: " ++ memory.

(** A response for an agent that watches the screen. *)
Definition sample_response : string :=
  canonical_response
    (response_head "screen_watcher" "Screen Watcher " "  Reads the screen"
       "gemini-2.0-flash" "10.5")
    "  You watch $SCREEN_OCR" "  console.log(1);" "none".

(** A response whose line [id:] is blank. *)
Definition blank_id_response : string :=
  "id:" ++ nl ++ "name: watcher" ++ nl ++ "model_name: g" ++ nl
  ++ "loop_interval_seconds: 5" ++ nl
  ++ "system_prompt: |" ++ nl ++ "x" ++ nl ++ "code: |" ++ nl ++ "y" ++ nl
  ++ "memory: ".

End GenerateAgent.

(* ================================================================== *)
(** ** The server address of the header (AppHeader.tsx) *)
(* ================================================================== *)

Module AppHeader.
Import JsString JsPattern.

(** [const [host, port] = address.split(':')] *)
Definition host_and_port (address : string) : string * option string :=
  let parts := split ":" address in
  (nth 0 parts EmptyString, nth_error parts 1).

(** [handleServerAddressChange]: the new value of [serverAddress] and the
    arguments of the call to [setOllamaServerAddress], if it is made. *)
Definition handleServerAddressChange (newAddress : string)
  : string * option (string * option string) :=
  (newAddress,
   if includes ":" newAddress then Some (host_and_port newAddress)
   else None).

End AppHeader.

(* ================================================================== *)
(** ** Vocabulary for the patterns and the parsed agent *)
(* ================================================================== *)

Module PatternVocabulary.
Import JsString JsRegExp JsPattern GenerateAgent.

(** Every character of [s] is in the class. *)
Fixpoint all_chars (cls : ascii -> bool) (s : string) : bool :=
  match s with
  | EmptyString => true
  | String c s' => cls c && all_chars cls s'
  end.

(** [s] is empty or begins with a character outside the class. *)
Definition stops (cls : ascii -> bool) (s : string) : bool :=
  match s with
  | EmptyString => true
  | String c _ => negb (cls c)
  end.

(** The accumulator after the characters of [x]. *)
Fixpoint push_all (x : string) (a : Acc) : Acc :=
  match x with
  | EmptyString => a
  | String c x' => push_all x' (push c a)
  end.

(** The character before the position reached after [x]. *)
Fixpoint last_of (prev : option ascii) (x : string) : option ascii :=
  match x with
  | EmptyString => prev
  | String c x' => last_of (Some c) x'
  end.

(** [s] neither begins nor ends with white space. *)
Definition no_outer_space (s : string) : bool :=
  match s with
  | EmptyString => true
  | String c _ =>
      negb (is_white_space c)
      && match last_of None s with
         | Some d => negb (is_white_space d)
         | None => true
         end
  end.

(** [s] holds no line terminator. *)
Definition single_line (s : string) : bool := all_chars is_dot s.

(** Digits, then possibly a dot and digits: the numerals that the pattern
    of [loop_interval_seconds] lets through. *)
Definition decimal_numeral (g : string) : Prop :=
  exists d1 d2,
    (g = d1 ++ d2 \/ g = d1 ++ "." ++ d2) /\
    d1 <> "" /\ all_chars is_digit d1 = true /\ all_chars is_digit d2 = true.

(** The state of the fake streaming after [n] periods, as long as the
    interval is set, and once it is cleared. *)
Definition streaming_at (response : string) (n : nat) (st : Streaming)
  : Prop :=
  (interval_set st = true /\ isFakeStreaming st = true /\
   currentIndex st = streamingSpeed * n /\
   visibleResponse st = take (streamingSpeed * n) response /\
   (n = 0 \/ streamingSpeed * n < String.length response))
  \/
  (interval_set st = false /\ isFakeStreaming st = false /\
   visibleResponse st = response /\
   String.length response <= streamingSpeed * n).

(** Lines, each ended by a line feed, and then the rest of the text. *)
Fixpoint lines_then (lines : list string) (rest : string) : string :=
  match lines with
  | [] => rest
  | line :: lines' => line ++ String newline (lines_then lines' rest)
  end.

End PatternVocabulary.

(* ================================================================== *)
(** ** Facts about the string primitives *)
(* ================================================================== *)

Module StringFacts.
Import JsString.

Lemma append_nil_r (s : string) : s ++ "" = s.
Proof. induction s as [|c s IH]; simpl; [reflexivity | now rewrite IH]. Qed.

Lemma append_assoc (a b c : string) : (a ++ b) ++ c = a ++ b ++ c.
Proof. induction a as [|x a IH]; simpl; [reflexivity | now rewrite IH]. Qed.

Lemma length_append (a b : string) :
  String.length (a ++ b) = String.length a + String.length b.
Proof. induction a as [|x a IH]; simpl; [reflexivity | now rewrite IH]. Qed.

Lemma take_append (a b : string) : take (String.length a) (a ++ b) = a.
Proof. induction a as [|x a IH]; simpl; [now destruct b | now rewrite IH]. Qed.

Lemma skip_append (a b : string) : skip (String.length a) (a ++ b) = b.
Proof. induction a as [|x a IH]; simpl; [reflexivity | exact IH]. Qed.

Lemma skip_add (n m : nat) (s : string) : skip (n + m) s = skip m (skip n s).
Proof.
  revert s; induction n as [|n IH]; intros s; simpl; [reflexivity|].
  destruct s as [|c s]; [now destruct m | apply IH].
Qed.

Lemma take_skip (n : nat) (s : string) : take n s ++ skip n s = s.
Proof.
  revert s; induction n as [|n IH]; intros [|c s]; simpl; try reflexivity.
  now rewrite IH.
Qed.

Lemma startsWith_append (p s : string) : startsWith p (p ++ s) = true.
Proof.
  induction p as [|c p IH]; simpl; [reflexivity|].
  now rewrite Ascii.eqb_refl, IH.
Qed.

Lemma startsWith_inv (p s : string) :
  startsWith p s = true -> s = p ++ skip (String.length p) s.
Proof.
  revert s; induction p as [|c p IH]; intros s H; simpl in *; [reflexivity|].
  destruct s as [|d s]; [discriminate|].
  apply andb_true_iff in H as [Hc Hp].
  apply Ascii.eqb_eq in Hc; subst d.
  now rewrite <- (IH s Hp).
Qed.

Lemma dollar_free_append (a b : string) :
  dollar_free (a ++ b) = dollar_free a && dollar_free b.
Proof.
  induction a as [|x a IH]; simpl; [reflexivity|].
  now rewrite IH, andb_assoc.
Qed.

(** A template without a dollar sign is substituted as it is. *)
Lemma GetSubstitution_dollar_free (m s : string) (pos : nat) (t : string) :
  dollar_free t = true -> GetSubstitution m s pos t = t.
Proof.
  induction t as [|c t IH]; simpl; intros H; [reflexivity|].
  apply andb_true_iff in H as [Hc Ht].
  apply negb_true_iff in Hc; rewrite Hc.
  now rewrite (IH Ht).
Qed.

(** A template without replacement pattern is substituted as it is. *)
Lemma GetSubstitution_pattern_free (m s : string) (pos : nat) (t : string) :
  pattern_free t = true -> GetSubstitution m s pos t = t.
Proof.
  induction t as [|c t IH]; intros H; [reflexivity|].
  cbn [pattern_free] in H. apply andb_true_iff in H as [Hc Ht].
  cbn [GetSubstitution].
  destruct (Ascii.eqb c "$"); [|now rewrite (IH Ht)].
  destruct t as [|d t']; [reflexivity|].
  apply negb_true_iff in Hc.
  apply orb_false_iff in Hc as [Hc H4].
  apply orb_false_iff in Hc as [Hc H3].
  apply orb_false_iff in Hc as [H1 H2].
  rewrite H1, H2, H3, H4. now rewrite (IH Ht).
Qed.

Lemma dollar_free_pattern_free (t : string) :
  dollar_free t = true -> pattern_free t = true.
Proof.
  induction t as [|c t IH]; intros H; [reflexivity|].
  cbn [dollar_free] in H. apply andb_true_iff in H as [Hc Ht].
  apply negb_true_iff in Hc. cbn [pattern_free]. rewrite Hc.
  now rewrite (IH Ht).
Qed.

Lemma startsWith_here (i : nat) (s p : string) :
  startsWith p s = true -> indexOf_from i s p = Some i.
Proof. intros H. destruct s; cbn [indexOf_from]; now rewrite H. Qed.

Lemma startsWith_append_same (a b s : string) :
  startsWith (a ++ b) (a ++ s) = startsWith b s.
Proof.
  induction a as [|c a IH]; [reflexivity|].
  cbn [append startsWith]. now rewrite Ascii.eqb_refl, IH.
Qed.

Lemma startsWith_append_split (a b s : string) :
  startsWith (a ++ b) s = true ->
  startsWith a s = true /\ startsWith b (skip (String.length a) s) = true.
Proof.
  revert s; induction a as [|c a IH]; intros s H; [now split|].
  destruct s as [|d s]; [discriminate H|].
  cbn [append startsWith] in H. apply andb_true_iff in H as [Hc Ha].
  destruct (IH s Ha) as [H1 H2].
  cbn [startsWith String.length skip]. now rewrite Hc, H1.
Qed.

(** [indexOf] returns the position of an occurrence. *)
Lemma indexOf_from_sound (i : nat) (s p : string) (k : nat) :
  indexOf_from i s p = Some k ->
  i <= k /\ s = take (k - i) s ++ p ++ skip (k - i + String.length p) s.
Proof.
  revert i; induction s as [|c s IH]; intros i; simpl.
  - destruct (startsWith p "") eqn:E; [|discriminate].
    intros [= <-]; split; [lia|].
    rewrite Nat.sub_diag; simpl. now apply startsWith_inv.
  - destruct (startsWith p (String c s)) eqn:E.
    + intros [= <-]; split; [lia|].
      rewrite Nat.sub_diag. cbn [take Nat.add append].
      now apply startsWith_inv.
    + intros H; apply IH in H as [Hle Hs]; split; [lia|].
      replace (k - i) with (S (k - S i)) by lia.
      cbn [take skip Nat.add append]. now rewrite <- Hs.
Qed.

(** A pattern that begins with a dollar sign is found right after a prefix
    without dollar signs. *)
Lemma indexOf_from_dollar (i : nat) (pre l rest : string) :
  dollar_free pre = true ->
  indexOf_from i (pre ++ String "$" l ++ rest) (String "$" l)
  = Some (i + String.length pre).
Proof.
  revert i; induction pre as [|c pre IH]; intros i H.
  - cbn [append indexOf_from String.length].
    change (String "$" (l ++ rest)) with (String "$" l ++ rest).
    rewrite startsWith_append. f_equal; lia.
  - simpl in H. apply andb_true_iff in H as [Hc Hpre].
    apply negb_true_iff in Hc.
    cbn [append indexOf_from startsWith String.length].
    rewrite Ascii.eqb_sym, Hc. cbn [andb].
    etransitivity; [exact (IH (S i) Hpre) | f_equal; lia].
Qed.

Lemma indexOf_from_dollar_free (i : nat) (s l : string) :
  dollar_free s = true -> indexOf_from i s (String "$" l) = None.
Proof.
  revert i; induction s as [|c s IH]; intros i H; [reflexivity|].
  simpl in H. apply andb_true_iff in H as [Hc Hs].
  apply negb_true_iff in Hc.
  cbn [indexOf_from startsWith]. rewrite Ascii.eqb_sym, Hc. cbn [andb].
  now apply IH.
Qed.

(** [replace] on the first occurrence, for a replacement without dollar
    signs. *)
Lemma replace_dollar (pre l rest t : string) :
  dollar_free pre = true -> dollar_free t = true ->
  replace (pre ++ String "$" l ++ rest) (String "$" l) t = pre ++ t ++ rest.
Proof.
  intros Hpre Ht. unfold replace, indexOf.
  rewrite indexOf_from_dollar by assumption. cbn [Nat.add].
  rewrite take_append, GetSubstitution_dollar_free by assumption.
  rewrite skip_add, skip_append.
  now rewrite skip_append.
Qed.

Lemma replace_at (s p t : string) (k : nat) :
  indexOf s p = Some k ->
  replace s p t = take k s ++ GetSubstitution p s k t
                    ++ skip (k + String.length p) s.
Proof. intros H; unfold replace; now rewrite H. Qed.

End StringFacts.

(* ================================================================== *)
(** ** Facts about the patterns *)
(* ================================================================== *)

Module RegExpFacts.
Import JsString JsRegExp Properties StringFacts.

Lemma base64_class_existsb (c : ascii) :
  base64_class c
  = existsb (Ascii.eqb c) (list_ascii_of_string base64_alphabet).
Proof. destruct c as [[] [] [] [] [] [] [] []]; reflexivity. Qed.

Lemma base64_class_alphabet (c : ascii) :
  base64_class c = true <-> In c (list_ascii_of_string base64_alphabet).
Proof.
  rewrite base64_class_existsb, existsb_exists. split.
  - intros (x & Hin & Heq). apply Ascii.eqb_eq in Heq. now subst x.
  - intros Hin. exists c. split; [assumption | apply Ascii.eqb_refl].
Qed.

Lemma span_whole (cls : ascii -> bool) (s : string) :
  String.length (span cls s) = String.length s <->
  (forall c, In c (list_ascii_of_string s) -> cls c = true).
Proof.
  induction s as [|c s IH]; simpl.
  - split; [intros _ c [] | reflexivity].
  - destruct (cls c) eqn:E; simpl.
    + split.
      * intros H x [<- | Hx]; [assumption|].
        apply IH; [lia | assumption].
      * intros H. f_equal. apply IH. intros x Hx. apply H. now right.
    + split; [discriminate|].
      intros H. specialize (H c (or_introl eq_refl)). congruence.
Qed.

(** The anchored test accepts the non-empty strings over the class. *)
Lemma test_anchored_plus_spec (cls : ascii -> bool) (s : string) :
  test_anchored_plus cls s = true <->
  s <> "" /\ (forall c, In c (list_ascii_of_string s) -> cls c = true).
Proof.
  unfold test_anchored_plus. rewrite andb_true_iff, Nat.eqb_eq, span_whole.
  split.
  - intros [Ht Hall]. split; [|assumption].
    intros ->. discriminate Ht.
  - intros [Hne Hall]. split; [|assumption].
    destruct s as [|c s]; [congruence|].
    simpl. now rewrite (Hall c (or_introl eq_refl)).
Qed.

(** A pattern without group is searched the way [indexOf] searches its
    literal. *)
Lemma search_literal (re : RegExp) (i : nat) (s : string) :
  group re = None ->
  search re i s
  = match indexOf_from i s (literal re) with
    | Some k => Some (k, (literal re, []))
    | None => None
    end.
Proof.
  intros Hg. revert i.
  induction s as [|c s IH]; intros i; simpl; unfold match_here; rewrite Hg.
  - now destruct (startsWith (literal re) "").
  - destruct (startsWith (literal re) (String c s)); [reflexivity | apply IH].
Qed.

(** A pattern whose literal begins with a dollar sign has no match in a
    string without dollar signs. *)
Lemma search_dollar_free (re : RegExp) (l : string) (i : nat) (s : string) :
  literal re = String "$" l -> dollar_free s = true -> search re i s = None.
Proof.
  intros Hl. revert i.
  induction s as [|c s IH]; intros i H; simpl; unfold match_here; rewrite Hl.
  - reflexivity.
  - simpl in H. apply andb_true_iff in H as [Hc Hs].
    apply negb_true_iff in Hc.
    cbn [startsWith]. rewrite Ascii.eqb_sym, Hc. cbn [andb].
    now apply IH.
Qed.

Lemma span_prefix (cls : ascii -> bool) (s : string) :
  startsWith (span cls s) s = true.
Proof.
  induction s as [|c s IH]; [reflexivity|].
  cbn [span]. destruct (cls c); [|reflexivity].
  cbn [startsWith]. now rewrite Ascii.eqb_refl.
Qed.

Lemma span_idem (cls : ascii -> bool) (s : string) :
  span cls (span cls s) = span cls s.
Proof.
  induction s as [|c s IH]; [reflexivity|].
  cbn [span]. destruct (cls c) eqn:E; [|reflexivity].
  cbn [span]. now rewrite E, IH.
Qed.

(** A non-empty run of the class at the start of [x] makes the greedy run
    of [x] non-empty. *)
Lemma span_truthy (cls : ascii -> bool) (g x : string) :
  span cls g = g -> truthy g = true -> startsWith g x = true ->
  truthy (span cls x) = true.
Proof.
  destruct g as [|c g]; [discriminate|]. intros Hg _ Hx.
  destruct x as [|d x]; [discriminate Hx|].
  cbn [startsWith] in Hx. apply andb_true_iff in Hx as [Hc _].
  apply Ascii.eqb_eq in Hc; subst d.
  cbn [span] in Hg |- *. destruct (cls c); [reflexivity | discriminate Hg].
Qed.

(** For a pattern with a group, the text of the leftmost match does not
    occur before the match: [indexOf] of that text is the position of the
    match. *)
Lemma search_group (re : RegExp) (cls : ascii -> bool) (s : string) :
  group re = Some cls ->
  forall (i k : nat) (m0 : string) (caps : list string),
    search re i s = Some (k, (m0, caps)) ->
    indexOf_from i s m0 = Some k /\
    exists g, m0 = literal re ++ g /\ caps = [g] /\
              truthy g = true /\ span cls g = g.
Proof.
  intros Hg. induction s as [|c s IH]; intros i k m0 caps H.
  - cbn [search] in H. unfold match_here in H. rewrite Hg in H.
    destruct (startsWith (literal re) "") eqn:Hl; [|discriminate].
    destruct (truthy (span cls (skip (String.length (literal re)) "")))
      eqn:Ht; [|discriminate].
    injection H as <- <- <-. split.
    + apply startsWith_here.
      rewrite (startsWith_inv _ _ Hl) at 2.
      rewrite startsWith_append_same. apply span_prefix.
    + eexists. repeat split; [exact Ht | apply span_idem].
  - cbn [search] in H. unfold match_here in H. rewrite Hg in H.
    destruct (startsWith (literal re) (String c s)) eqn:Hl.
    + destruct (truthy (span cls (skip (String.length (literal re))
                                    (String c s)))) eqn:Ht.
      * injection H as <- <- <-. split.
        -- apply startsWith_here.
           rewrite (startsWith_inv _ _ Hl) at 2.
           rewrite startsWith_append_same. apply span_prefix.
        -- eexists. repeat split; [exact Ht | apply span_idem].
      * destruct (IH _ _ _ _ H) as (Hk & g & -> & -> & Hgt & Hgs).
        split; [|now exists g].
        cbn [indexOf_from].
        destruct (startsWith (literal re ++ g) (String c s)) eqn:Hm;
          [|exact Hk].
        apply startsWith_append_split in Hm as [_ Hm].
        rewrite (span_truthy cls g _ Hgs Hgt Hm) in Ht. discriminate Ht.
    + destruct (IH _ _ _ _ H) as (Hk & g & -> & -> & Hgt & Hgs).
      split; [|now exists g].
      cbn [indexOf_from].
      destruct (startsWith (literal re ++ g) (String c s)) eqn:Hm;
        [|exact Hk].
      apply startsWith_append_split in Hm as [Hm _]. congruence.
Qed.

Lemma identifier_class_existsb (c : ascii) :
  identifier_class c
  = existsb (Ascii.eqb c) (list_ascii_of_string identifier_alphabet).
Proof. destruct c as [[] [] [] [] [] [] [] []]; reflexivity. Qed.

Lemma identifier_class_alphabet (c : ascii) :
  identifier_class c = true <->
  In c (list_ascii_of_string identifier_alphabet).
Proof.
  rewrite identifier_class_existsb, existsb_exists. split.
  - intros (x & Hin & Heq). apply Ascii.eqb_eq in Heq. now subst x.
  - intros Hin. exists c. split; [assumption | apply Ascii.eqb_refl].
Qed.

(** A pattern without group occurs in the strings that contain its
    literal. *)
Lemma occurs_literal (re : RegExp) (s : string) :
  group re = None ->
  occurs re s = true <-> contains s (literal re).
Proof.
  intros Hg. unfold occurs. rewrite (search_literal re 0 s Hg). split.
  - destruct (indexOf_from 0 s (literal re)) as [k|] eqn:Hk; [|discriminate].
    intros _. apply indexOf_from_sound in Hk as [_ Hs].
    now exists (take (k - 0) s),
               (skip (k - 0 + String.length (literal re)) s).
  - intros (pre & post & ->).
    enough (H : forall i, indexOf_from i (pre ++ literal re ++ post)
                            (literal re) <> None).
    { specialize (H 0).
      now destruct (indexOf_from 0 (pre ++ literal re ++ post) (literal re)). }
    induction pre as [|c pre IH]; intros i.
    + cbn [append]. now rewrite startsWith_here by apply startsWith_append.
    + cbn [append indexOf_from].
      destruct (startsWith (literal re) (String c (pre ++ literal re ++ post)));
        [discriminate | apply IH].
Qed.

(** A pattern with a group occurs in the strings that contain its literal
    followed by a character of the class. *)
Lemma occurs_group (re : RegExp) (cls : ascii -> bool) (s : string) :
  group re = Some cls ->
  occurs re s = true <->
  exists pre c post, s = pre ++ literal re ++ String c post /\ cls c = true.
Proof.
  intros Hg. unfold occurs. split.
  - destruct (search re 0 s) as [[k [m0 caps]]|] eqn:Hs; [|discriminate].
    intros _.
    destruct (search_group re cls s Hg _ _ _ _ Hs)
      as (Hk & g & -> & _ & Hgt & Hgs).
    apply indexOf_from_sound in Hk as [_ Hk].
    destruct g as [|c g]; [discriminate Hgt|].
    exists (take (k - 0) s), c,
      (g ++ skip (k - 0 + String.length (literal re ++ String c g)) s).
    split.
    + rewrite Hk at 1. f_equal. now rewrite append_assoc.
    + cbn [span] in Hgs. destruct (cls c); [reflexivity | discriminate Hgs].
  - intros (pre & c & post & -> & Hc).
    enough (H : forall i, search re i (pre ++ literal re ++ String c post)
                          <> None).
    { specialize (H 0).
      now destruct (search re 0 (pre ++ literal re ++ String c post)). }
    induction pre as [|d pre IH]; intros i.
    + cbn [append]. 
      assert (Hm : match_here re (literal re ++ String c post) <> None).
      { unfold match_here. rewrite startsWith_append, Hg, skip_append.
        cbn [span]. rewrite Hc. discriminate. }
      destruct (literal re ++ String c post) as [|x rest] eqn:E;
        cbn [search];
        destruct (match_here re _); congruence.
    + cbn [append search].
      destruct (match_here re (String d (pre ++ literal re ++ String c post)));
        [discriminate | apply IH].
Qed.

(** What [marker_free] decides. *)
Lemma marker_free_spec (s : string) :
  marker_free s = true <->
  ~ contains s "$SCREEN_OCR" /\ ~ contains_memory_marker s /\
  ~ contains s "$SCREEN_64".
Proof.
  unfold marker_free, directive_patterns. cbn [forallb].
  rewrite !andb_true_iff, !negb_true_iff.
  pose proof (occurs_literal {| literal := "$SCREEN_OCR"; group := None |}
                s eq_refl) as Hocr.
  pose proof (occurs_literal {| literal := "$SCREEN_64"; group := None |}
                s eq_refl) as H64.
  pose proof (occurs_group
                {| literal := "$MEMORY@"; group := Some identifier_class |}
                identifier_class s eq_refl) as Hmem.
  cbn [literal] in Hocr, H64, Hmem.
  assert (Hmem' : occurs
                    {| literal := "$MEMORY@"; group := Some identifier_class |}
                    s = true <-> contains_memory_marker s).
  { rewrite Hmem. unfold contains_memory_marker.
    split; intros (pre & c & post & Hs & Hc); exists pre, c, post;
      (split; [exact Hs | now apply identifier_class_alphabet]). }
  rewrite <- Hocr, <- H64, <- Hmem'.
  repeat match goal with
         | |- context [occurs ?re s] => destruct (occurs re s)
         end; intuition congruence.
Qed.

Lemma exec_no_occurrence (re : RegExp) (s : string) :
  occurs re s = false -> exec re 0 s = (None, 0).
Proof.
  unfold occurs, exec. cbn [Nat.ltb Nat.leb skip].
  now destruct (search re 0 s) as [[k [m0 caps]]|].
Qed.

End RegExpFacts.

(* ================================================================== *)
(** ** The resolvers *)
(* ================================================================== *)

Module HandlerFacts.
Import JsString JsRegExp Effects PreProcessor Properties Scenarios.
Import StringFacts RegExpFacts.

(** C9. In the [$SCREEN_64] resolver a throw of [startScreenCapture], a
    falsy stream (turned into a throw) and a throw of [captureScreenImage]
    all give the replacement text [[Error with screen capture]]; and the
    text [[Error capturing screen]] is returned only when the stream was
    truthy and [captureScreenImage] completed normally with a falsy value. *)
Theorem SCREEN_64_throw_text (W : Type) (env : Providers W)
  (agentId prompt : string) (m : RegExpExecArray) (w : W) :
  (forall e w', startScreenCapture env w = Throw e w' ->
     SCREEN_64_handler env agentId prompt m w
     = Normal (replaceWith "[Error with screen capture]") w') /\
  (forall w', startScreenCapture env w = Normal false w' ->
     SCREEN_64_handler env agentId prompt m w
     = Normal (replaceWith "[Error with screen capture]") w') /\
  (forall w1 e w', startScreenCapture env w = Normal true w1 ->
     captureScreenImage env w1 = Throw e w' ->
     SCREEN_64_handler env agentId prompt m w
     = Normal (replaceWith "[Error with screen capture]") w') /\
  (forall r w', SCREEN_64_handler env agentId prompt m w = Normal r w' ->
     ProcessorResult.replacementText r = Some "[Error capturing screen]" ->
     exists w1 v, startScreenCapture env w = Normal true w1 /\
                  captureScreenImage env w1 = Normal v w' /\
                  truthy_value v = false).
Proof.
  repeat split.
  - intros e w' H. run_handler. now rewrite H.
  - intros w' H. run_handler. now rewrite H.
  - intros w1 e w' H1 H2. run_handler. rewrite H1. cbn [negb].
    now rewrite H2.
  - intros r w'. run_handler.
    destruct (startScreenCapture env w) as [[|] w1|e w1|] eqn:Hs; cbn [negb];
      try (intros [= <- <-]; discriminate); try discriminate.
    destruct (captureScreenImage env w1) as [v w2|e w2|] eqn:Hc;
      try (intros [= <- <-]; discriminate); try discriminate.
    destruct v as [image|].
    + destruct (truthy image) eqn:Ht.
      * destruct (test_anchored_plus base64_class image); cbn [negb];
          intros [= <- <-]; discriminate.
      * intros [= <- <-] _. exists w1, (Some image). now repeat split.
    + intros [= <- <-] _. exists w1, None. now repeat split.
Qed.

Lemma SCREEN_64_throw_text_witness :
  SCREEN_64_handler (providers_of false ocr_failed None (fun _ => None))
    "agent" "see $SCREEN_64" (match_at "$SCREEN_64" 4 "see $SCREEN_64") 0
  = Normal (replaceWith "[Error with screen capture]") 1.
Proof.
  apply (proj1 (proj2 (SCREEN_64_throw_text nat
           (providers_of false ocr_failed None (fun _ => None))
           "agent" "see $SCREEN_64" (match_at "$SCREEN_64" 4 "see $SCREEN_64")
           0))).
  reflexivity.
Defined.

(** C10. The validation of the [$SCREEN_64] resolver accepts exactly the
    non-empty strings over [A-Za-z0-9+/=]; a captured string with any other
    character gives [[Error: Invalid image data]] and no attachment; an
    empty captured string gives [[Error capturing screen]]. *)
Theorem base64_validation (W : Type) (env : Providers W)
  (agentId prompt : string) (m : RegExpExecArray) :
  (forall s, test_anchored_plus base64_class s = true <->
             s <> "" /\ composed_of base64_alphabet s) /\
  (forall w w1 w2 image,
     startScreenCapture env w = Normal true w1 ->
     captureScreenImage env w1 = Normal (Some image) w2 ->
     (exists c, In c (list_ascii_of_string image) /\
                ~ In c (list_ascii_of_string base64_alphabet)) ->
     SCREEN_64_handler env agentId prompt m w
     = Normal {| ProcessorResult.replacementText :=
                   Some "[Error: Invalid image data]";
                 ProcessorResult.images := None |} w2) /\
  (forall w w1 w2,
     startScreenCapture env w = Normal true w1 ->
     captureScreenImage env w1 = Normal (Some "") w2 ->
     SCREEN_64_handler env agentId prompt m w
     = Normal {| ProcessorResult.replacementText :=
                   Some "[Error capturing screen]";
                 ProcessorResult.images := None |} w2) /\
  (forall st placeholder lastIndex' t,
     collected (apply_result st placeholder lastIndex' (replaceWith t))
     = collected st).
Proof.
  assert (Hspec : forall s, test_anchored_plus base64_class s = true <->
                            s <> "" /\ composed_of base64_alphabet s).
  { intros s. rewrite test_anchored_plus_spec. unfold composed_of.
    split; intros [Hne Hall]; (split; [assumption|]); intros c Hc;
      apply base64_class_alphabet; auto. }
  split; [exact Hspec|]. split; [|split].
  - intros w w1 w2 image Hs Hc (c & Hin & Hout). run_handler.
    rewrite Hs. cbn [negb]. rewrite Hc.
    assert (Ht : truthy image = true).
    { destruct image; [destruct Hin | reflexivity]. }
    rewrite Ht.
    destruct (test_anchored_plus base64_class image) eqn:E; [|reflexivity].
    apply Hspec in E as [_ Hall]. now elim Hout; apply Hall.
  - intros w w1 w2 Hs Hc. run_handler. rewrite Hs. cbn [negb].
    now rewrite Hc.
  - reflexivity.
Qed.

Lemma base64_validation_witness :
  SCREEN_64_handler
    (providers_of true ocr_failed (Some "data:image/png;base64,aGVsbG8=")
       (fun _ => None))
    "agent" "see $SCREEN_64" (match_at "$SCREEN_64" 4 "see $SCREEN_64") 0
  = Normal {| ProcessorResult.replacementText :=
                Some "[Error: Invalid image data]";
              ProcessorResult.images := None |} 2.
Proof.
  apply (proj1 (proj2 (base64_validation nat
           (providers_of true ocr_failed
              (Some "data:image/png;base64,aGVsbG8=") (fun _ => None))
           "agent" "see $SCREEN_64"
           (match_at "$SCREEN_64" 4 "see $SCREEN_64")))
           0 1 2 "data:image/png;base64,aGVsbG8=" eq_refl eq_refl).
  exists ":"%char. split.
  - cbn. tauto.
  - cbn. intros H.
    repeat (destruct H as [H | H]; [discriminate H|]). exact H.
Defined.

(** The resolvers of the table catch what their providers throw, and
    always return a replacement text. *)
Lemma SCREEN_OCR_handler_returns (W : Type) (env : Providers W)
  (agentId prompt : string) (m : RegExpExecArray) (w : W) :
  (forall e w', SCREEN_OCR_handler env agentId prompt m w <> Throw e w') /\
  (forall r w', SCREEN_OCR_handler env agentId prompt m w = Normal r w' ->
     ProcessorResult.replacementText r <> None /\
     ProcessorResult.images r = None).
Proof.
  run_handler.
  destruct (startScreenCapture env w) as [[|] w1|e w1|]; cbn [negb].
  - destruct (captureFrameAndOCR env w1) as [o w2|e w2|].
    + destruct (success o && truthy_value (text o)) eqn:E.
      * split; [discriminate|]. intros r w' [= <- <-].
        cbn. split; [|reflexivity].
        apply andb_true_iff in E as [_ E].
        destruct (text o); [discriminate | discriminate E].
      * split; [discriminate|]. intros r w' [= <- <-].
        split; [discriminate | reflexivity].
    + split; [discriminate|]. intros r w' [= <- <-].
      split; [discriminate | reflexivity].
    + split; discriminate.
  - split; [discriminate|]. intros r w' [= <- <-].
    split; [discriminate | reflexivity].
  - split; [discriminate|]. intros r w' [= <- <-].
    split; [discriminate | reflexivity].
  - split; discriminate.
Qed.

Lemma MEMORY_handler_returns (W : Type) (env : Providers W)
  (agentId prompt : string) (m : RegExpExecArray) (w : W) :
  (forall e w', MEMORY_handler env agentId prompt m w <> Throw e w') /\
  (forall r w', MEMORY_handler env agentId prompt m w = Normal r w' ->
     ProcessorResult.replacementText r <> None /\
     ProcessorResult.images r = None).
Proof.
  run_handler.
  destruct (getAgentMemory env (capture1 m) w) as [memory w1|e w1|].
  - split; [discriminate|]. intros r w' [= <- <-].
    split; [discriminate | reflexivity].
  - split; [discriminate|]. intros r w' [= <- <-].
    split; [discriminate | reflexivity].
  - split; discriminate.
Qed.

Lemma SCREEN_64_handler_returns (W : Type) (env : Providers W)
  (agentId prompt : string) (m : RegExpExecArray) (w : W) :
  (forall e w', SCREEN_64_handler env agentId prompt m w <> Throw e w') /\
  (forall r w', SCREEN_64_handler env agentId prompt m w = Normal r w' ->
     ProcessorResult.replacementText r <> None /\
     (ProcessorResult.images r = None \/
      exists image w1,
        captureScreenImage env w1 = Normal (Some image) w' /\
        truthy image = true /\
        ProcessorResult.images r = Some [image])).
Proof.
  run_handler.
  destruct (startScreenCapture env w) as [[|] w1|e w1|]; cbn [negb].
  - destruct (captureScreenImage env w1) as [[image|] w2|e w2|] eqn:Hc.
    + destruct (truthy image) eqn:Ht.
      * destruct (test_anchored_plus base64_class image); cbn [negb].
        -- split; [discriminate|]. intros r w' [= <- <-].
           split; [discriminate|]. right. now exists image, w1.
        -- split; [discriminate|]. intros r w' [= <- <-].
           split; [discriminate | now left].
      * split; [discriminate|]. intros r w' [= <- <-].
        split; [discriminate | now left].
    + split; [discriminate|]. intros r w' [= <- <-].
      split; [discriminate | now left].
    + split; [discriminate|]. intros r w' [= <- <-].
      split; [discriminate | now left].
    + split; discriminate.
  - split; [discriminate|]. intros r w' [= <- <-].
    split; [discriminate | now left].
  - split; [discriminate|]. intros r w' [= <- <-].
    split; [discriminate | now left].
  - split; discriminate.
Qed.

Lemma SCREEN_OCR_handler_reads (W : Type) (env : Providers W) (T : string) :
  ocr_always_reads env T -> truthy T = true ->
  forall agentId prompt m w,
    exists w',
      SCREEN_OCR_handler env agentId prompt m w = Normal (replaceWith T) w'.
Proof.
  intros [Hs Ho] HT agentId prompt m w.
  destruct (Hs w) as [w1 H1]. destruct (Ho w1) as (err & w2 & H2).
  exists w2. run_handler. rewrite H1. cbn [negb]. rewrite H2.
  cbn [success text truthy_value]. now rewrite HT.
Qed.

End HandlerFacts.

(* ================================================================== *)
(** ** The engine *)
(* ================================================================== *)

Module EngineFacts.
Import JsString JsRegExp Effects PreProcessor Properties Scenarios.
Import StringFacts RegExpFacts HandlerFacts.

Section Generic.

Context {W : Type}.

Lemma apply_result_collected (st : LoopState) (placeholder : string)
  (li : nat) (r : ProcessorResult.t) :
  (exists l, collected st = Some l) ->
  exists l, collected (apply_result st placeholder li r) = Some l.
Proof.
  intros [l Hl]. unfold apply_result.
  destruct (ProcessorResult.replacementText r);
    destruct (ProcessorResult.images r) as [[|x new]|]; cbn [collected]; eauto.
Qed.

Lemma drain_collected (fuel : nat) (p : Processor W) (agentId : string) :
  forall (st st' : LoopState) (w w' : W),
    drain fuel p agentId st w = Normal st' w' ->
    (exists l, collected st = Some l) ->
    exists l, collected st' = Some l.
Proof.
  induction fuel as [|fuel IH]; intros st st' w w' Hrun Hst; simpl in Hrun;
    destruct (exec (regex p) (lastIndex st) (working st)) as [[m|] li];
    try discriminate;
    try (injection Hrun as <- <-; exact Hst).
  unfold iteration in Hrun. unfold bind, ret in Hrun.
  destruct (handler p agentId (working st) m w) as [r w1|e w1|];
    try discriminate.
  eapply IH; [exact Hrun|]. now apply apply_result_collected.
Qed.

(** One turn of the loop, when the resolver has returned. *)
Lemma drain_step (fuel : nat) (p : Processor W) (agentId : string)
  (st : LoopState) (m : RegExpExecArray) (li : nat) (r : ProcessorResult.t)
  (w w1 : W) :
  exec (regex p) (lastIndex st) (working st) = (Some m, li) ->
  handler p agentId (working st) m w = Normal r w1 ->
  drain (S fuel) p agentId st w
  = drain fuel p agentId (apply_result st (matched m) li r) w1.
Proof.
  intros He Hh. cbn [drain]. rewrite He.
  unfold iteration. unfold bind, ret. now rewrite Hh.
Qed.

Lemma for_each_collected (fuel : nat) (table : list (string * Processor W))
  (agentId : string) :
  forall (st st' : LoopState) (w w' : W),
    for_each fuel table agentId st w = Normal st' w' ->
    (exists l, collected st = Some l) ->
    exists l, collected st' = Some l.
Proof.
  induction table as [|[name p] rest IH]; intros st st' w w' Hrun Hst;
    simpl in Hrun.
  - injection Hrun as <- <-; exact Hst.
  - unfold bind in Hrun.
    destruct (drain fuel p agentId _ w) as [st1 w1|e w1|] eqn:Hd;
      try discriminate.
    eapply IH; [exact Hrun|].
    eapply drain_collected; [exact Hd | exact Hst].
Qed.

(** A loop whose pattern has no occurrence ends at once. *)
Lemma drain_no_occurrence (fuel : nat) (p : Processor W) (agentId s : string)
  (imgs : option (list string)) (w : W) :
  occurs (regex p) s = false ->
  drain fuel p agentId {| working := s; lastIndex := 0; collected := imgs |} w
  = Normal {| working := s; lastIndex := 0; collected := imgs |} w.
Proof.
  intros H. destruct fuel; simpl; now rewrite (exec_no_occurrence _ _ H).
Qed.

Lemma exec_none (re : RegExp) (s : string) (li : nat) :
  exec re 0 s = (None, li) -> li = 0 /\ occurs re s = false.
Proof.
  unfold exec, occurs. cbn [Nat.ltb Nat.leb skip].
  destruct (search re 0 s) as [[k [m0 caps]]|]; [discriminate|].
  now intros [= <-].
Qed.

Lemma drain_no_throw (fuel : nat) (p : Processor W) (agentId : string) :
  never_throws p ->
  forall st w e w', drain fuel p agentId st w <> Throw e w'.
Proof.
  intros Hp. induction fuel as [|fuel IH]; intros st w e w'; simpl;
    destruct (exec (regex p) (lastIndex st) (working st)) as [[m|] li];
    try discriminate.
  unfold iteration. unfold bind, ret.
  destruct (handler p agentId (working st) m w) as [r w1|e1 w1|] eqn:Hh.
  - apply IH.
  - now apply Hp in Hh.
  - discriminate.
Qed.

Lemma for_each_no_throw (fuel : nat) (table : list (string * Processor W))
  (agentId : string) :
  (forall name p, In (name, p) table -> never_throws p) ->
  forall st w e w', for_each fuel table agentId st w <> Throw e w'.
Proof.
  induction table as [|[name p] rest IH]; intros Hall st w e w'; simpl.
  - discriminate.
  - unfold bind.
    destruct (drain fuel p agentId _ w) as [st1 w1|e1 w1|] eqn:Hd.
    + apply IH. intros n q Hq. apply (Hall n q). now right.
    + apply drain_no_throw in Hd; [contradiction|].
      apply (Hall name p). now left.
    + discriminate.
Qed.

Lemma apply_result_no_images (st : LoopState) (placeholder : string)
  (li : nat) (r : ProcessorResult.t) :
  ProcessorResult.images r = None ->
  collected (apply_result st placeholder li r) = collected st.
Proof.
  intros H. unfold apply_result. rewrite H.
  now destruct (ProcessorResult.replacementText r).
Qed.

Lemma drain_collected_unchanged (fuel : nat) (p : Processor W)
  (agentId : string) :
  attaches_nothing p ->
  forall st st' w w',
    drain fuel p agentId st w = Normal st' w' -> collected st' = collected st.
Proof.
  intros Hp. induction fuel as [|fuel IH]; intros st st' w w' Hrun;
    simpl in Hrun;
    destruct (exec (regex p) (lastIndex st) (working st)) as [[m|] li];
    try discriminate;
    try (injection Hrun as <- <-; reflexivity).
  unfold iteration in Hrun. unfold bind, ret in Hrun.
  destruct (handler p agentId (working st) m w) as [r w1|e w1|] eqn:Hh;
    try discriminate.
  rewrite (IH _ _ _ _ Hrun).
  apply apply_result_no_images. exact (Hp _ _ _ _ _ _ Hh).
Qed.

Lemma for_each_collected_unchanged (fuel : nat)
  (table : list (string * Processor W)) (agentId : string) :
  (forall name p, In (name, p) table -> attaches_nothing p) ->
  forall st st' w w',
    for_each fuel table agentId st w = Normal st' w' ->
    collected st' = collected st.
Proof.
  induction table as [|[name p] rest IH]; intros Hall st st' w w' Hrun;
    simpl in Hrun.
  - now injection Hrun as <- <-.
  - unfold bind in Hrun.
    destruct (drain fuel p agentId _ w) as [st1 w1|e1 w1|] eqn:Hd;
      try discriminate.
    rewrite (IH (fun n q Hq => Hall n q (or_intror Hq)) _ _ _ _ Hrun).
    apply (drain_collected_unchanged fuel p agentId) in Hd;
      [exact Hd | apply (Hall name p); now left].
Qed.

(** When every turn rewinds the pattern, the loop ends only on a text in
    which the pattern has no occurrence left. *)
Lemma drain_exhausts (fuel : nat) (p : Processor W) (agentId : string) :
  always_replaces p ->
  forall st st' w w',
    lastIndex st = 0 ->
    drain fuel p agentId st w = Normal st' w' ->
    lastIndex st' = 0 /\ occurs (regex p) (working st') = false.
Proof.
  intros Hp. induction fuel as [|fuel IH]; intros st st' w w' H0 Hrun;
    simpl in Hrun; rewrite H0 in Hrun;
    destruct (exec (regex p) 0 (working st)) as [[m|] li] eqn:He;
    try discriminate;
    try (injection Hrun as <- <-; cbn [lastIndex working];
         exact (exec_none _ _ _ He)).
  unfold iteration in Hrun. unfold bind, ret in Hrun.
  destruct (handler p agentId (working st) m w) as [r w1|e w1|] eqn:Hh;
    try discriminate.
  apply (IH _ _ _ _) in Hrun; [exact Hrun|].
  apply Hp in Hh. unfold apply_result.
  destruct (ProcessorResult.replacementText r); [reflexivity | congruence].
Qed.

Lemma exec_literal_dollar (re : RegExp) (l pre rest : string) :
  group re = None -> literal re = String "$" l ->
  dollar_free pre = true ->
  exec re 0 (pre ++ String "$" l ++ rest)
  = (Some {| matched := String "$" l; captures := [];
             index := String.length pre;
             input := pre ++ String "$" l ++ rest |},
     String.length pre + String.length (String "$" l)).
Proof.
  intros Hg Hl Hpre. unfold exec. cbn [Nat.ltb Nat.leb skip].
  rewrite (search_literal re 0 _ Hg), Hl.
  now rewrite (indexOf_from_dollar 0 pre l rest Hpre).
Qed.

Lemma concat_dollar_free (T : string) (segs : list string) :
  dollar_free T = true -> forallb dollar_free segs = true ->
  dollar_free (String.concat T segs) = true.
Proof.
  intros HT. induction segs as [|x xs IH]; intros H; [reflexivity|].
  cbn [forallb] in H. apply andb_true_iff in H as [Hx Hxs].
  destruct xs as [|y ys]; [exact Hx|].
  change (String.concat T (x :: y :: ys))
    with (x ++ T ++ String.concat T (y :: ys)).
  now rewrite !dollar_free_append, Hx, HT, (IH Hxs).
Qed.

(** The loop of a pattern that is a literal beginning with a dollar sign,
    on pieces of text without dollar sign joined by that literal, when the
    resolver always returns the same text [T] without dollar sign: every
    joint is replaced by [T], in as many turns as there are joints. *)
Lemma drain_segments (p : Processor W) (l T agentId : string) :
  regex p = {| literal := String "$" l; group := None |} ->
  dollar_free T = true ->
  (forall prompt m w,
     exists w', handler p agentId prompt m w = Normal (replaceWith T) w') ->
  forall (segs : list string) (pre : string) (imgs : option (list string))
         (fuel : nat) (w : W),
    forallb dollar_free segs = true -> dollar_free pre = true ->
    List.length segs <= S fuel ->
    exists w',
      drain fuel p agentId
        {| working := pre ++ String.concat (String "$" l) segs; lastIndex := 0;
           collected := imgs |} w
      = Normal {| working := pre ++ String.concat T segs; lastIndex := 0;
                  collected := imgs |} w'.
Proof.
  intros Hre HT Hh.
  assert (Hquiet : forall s, dollar_free s = true ->
                             occurs (regex p) s = false).
  { intros s Hs. unfold occurs.
    rewrite (search_dollar_free (regex p) l 0 s); [reflexivity| |exact Hs].
    now rewrite Hre. }
  induction segs as [|x xs IH]; intros pre imgs fuel w Hsegs Hpre Hfuel.
  - exists w. cbn [String.concat]. apply drain_no_occurrence, Hquiet.
    now rewrite dollar_free_append, Hpre.
  - cbn [forallb] in Hsegs. apply andb_true_iff in Hsegs as [Hx Hxs].
    destruct xs as [|y ys].
    + exists w. cbn [String.concat]. apply drain_no_occurrence, Hquiet.
      now rewrite dollar_free_append, Hpre, Hx.
    + destruct fuel as [|fuel]; [cbn in Hfuel; lia|].
      change (String.concat (String "$" l) (x :: y :: ys))
        with (x ++ String "$" l ++ String.concat (String "$" l) (y :: ys)).
      change (String.concat T (x :: y :: ys))
        with (x ++ T ++ String.concat T (y :: ys)).
      set (rest := String.concat (String "$" l) (y :: ys)).
      rewrite <- (append_assoc pre x (String "$" l ++ rest)).
      assert (Hpx : dollar_free (pre ++ x) = true)
        by now rewrite dollar_free_append, Hpre, Hx.
      pose proof (exec_literal_dollar (regex p) l (pre ++ x) rest) as He.
      rewrite Hre in He. specialize (He eq_refl eq_refl Hpx).
      rewrite <- Hre in He.
      destruct (Hh ((pre ++ x) ++ String "$" l ++ rest)
                  {| matched := String "$" l; captures := [];
                     index := String.length (pre ++ x);
                     input := (pre ++ x) ++ String "$" l ++ rest |} w)
        as [w1 Hw1].
      erewrite drain_step; [|exact He|exact Hw1].
      unfold apply_result, replaceWith.
      cbn [ProcessorResult.replacementText ProcessorResult.images
           working lastIndex collected matched].
      rewrite (replace_dollar (pre ++ x) l rest T Hpx HT).
      rewrite <- (append_assoc (pre ++ x) T rest).
      assert (Hpxt : dollar_free ((pre ++ x) ++ T) = true)
        by now rewrite dollar_free_append, Hpx, HT.
      destruct (IH ((pre ++ x) ++ T) imgs fuel w1 Hxs Hpxt) as [w' Hw'].
      { cbn [List.length] in *. lia. }
      exists w'. unfold rest. rewrite Hw'.
      now rewrite !append_assoc.
Qed.

End Generic.

(** What [exec] reports for a pattern without group, from the start of
    the string: the first occurrence of the literal, the one [replace]
    works on. *)
Lemma exec_literal (re : RegExp) (s : string) (m : RegExpExecArray)
  (li : nat) :
  group re = None ->
  exec re 0 s = (Some m, li) ->
  matched m = literal re /\
  indexOf s (literal re) = Some (index m) /\
  li = index m + String.length (literal re) /\
  s = take (index m) s ++ literal re
        ++ skip (index m + String.length (literal re)) s.
Proof.
  intros Hg. unfold exec, indexOf. cbn [Nat.ltb Nat.leb skip].
  rewrite (search_literal re 0 s Hg).
  destruct (indexOf_from 0 s (literal re)) as [k|] eqn:Hk; [|discriminate].
  intros [= <- <-]. cbn [matched index].
  apply indexOf_from_sound in Hk as [_ Hs]. rewrite Nat.sub_0_r in Hs.
  now repeat split.
Qed.

Lemma processors_never_throw (W : Type) (env : Providers W)
  (name : string) (p : Processor W) :
  In (name, p) (processors env) -> never_throws p.
Proof.
  intros Hin; destruct Hin as [E|[E|[E|[]]]]; injection E as _ <-;
    intros agentId prompt m w e w'.
  - apply SCREEN_OCR_handler_returns.
  - apply MEMORY_handler_returns.
  - apply SCREEN_64_handler_returns.
Qed.

Lemma processors_always_replace (W : Type) (env : Providers W)
  (name : string) (p : Processor W) :
  In (name, p) (processors env) -> always_replaces p.
Proof.
  intros Hin; destruct Hin as [E|[E|[E|[]]]]; injection E as _ <-;
    intros agentId prompt m w r w' H.
  - now apply SCREEN_OCR_handler_returns in H.
  - now apply MEMORY_handler_returns in H.
  - now apply SCREEN_64_handler_returns in H.
Qed.

(** The loop of a processor of the table returns only on a text in which
    its pattern has no occurrence left, those that came with a replacement
    text included. *)
Corollary processors_drain_exhausts (W : Type) (env : Providers W)
  (name : string) (p : Processor W) (fuel : nat) (agentId s : string)
  (imgs : option (list string)) (st' : LoopState) (w w' : W) :
  In (name, p) (processors env) ->
  drain fuel p agentId {| working := s; lastIndex := 0; collected := imgs |} w
  = Normal st' w' ->
  lastIndex st' = 0 /\ occurs (regex p) (working st') = false.
Proof.
  intros Hin Hrun.
  eapply (drain_exhausts fuel p agentId
            (processors_always_replace W env name p Hin));
    [|exact Hrun]; reflexivity.
Qed.

Lemma processors_attach_nothing (W : Type) (env : Providers W)
  (name : string) (p : Processor W) :
  capture_always_fails env ->
  In (name, p) (processors env) -> attaches_nothing p.
Proof.
  intros Hfail Hin; destruct Hin as [E|[E|[E|[]]]]; injection E as _ <-;
    intros agentId prompt m w r w' H.
  - now apply SCREEN_OCR_handler_returns in H.
  - now apply MEMORY_handler_returns in H.
  - destruct (proj2 (SCREEN_64_handler_returns W env agentId prompt m w)
                r w' H) as [_ [Hnone|(image & w1 & Hc & Ht & _)]];
      [exact Hnone|].
    apply Hfail in Hc. cbn in Hc. congruence.
Qed.

(** With the resolvers of the table, the [catch] block of [preProcess] is
    never entered: every result comes from the [try] block. *)
Lemma preProcess_from_try (W : Type) (env : Providers W) (fuel : nat)
  (agentId systemPrompt : string) (w : W) :
  preProcess env fuel agentId systemPrompt w
  = preProcess_try fuel (processors env) agentId systemPrompt w.
Proof.
  unfold preProcess, preProcessWith, try_catch.
  destruct (preProcess_try fuel (processors env) agentId systemPrompt w)
    as [r w1|e w1|] eqn:Htry; try reflexivity.
  unfold preProcess_try, bind, ret in Htry.
  destruct (for_each fuel (processors env) agentId _ w)
    as [st w2|e2 w2|] eqn:Hloop; try discriminate.
  apply for_each_no_throw in Hloop; [contradiction|].
  apply processors_never_throw.
Qed.

Corollary preProcess_images_defined (W : Type) (env : Providers W)
  (fuel : nat) (agentId systemPrompt : string) (w w' : W)
  (r : PreProcessorResult) :
  preProcess env fuel agentId systemPrompt w = Normal r w' ->
  exists l, images r = Some l.
Proof.
  rewrite preProcess_from_try. unfold preProcess_try, bind, ret.
  destruct (for_each fuel (processors env) agentId _ w)
    as [st w2|e2 w2|] eqn:Hloop; try discriminate.
  intros [= <- <-]. cbn [images].
  eapply for_each_collected; [exact Hloop|]. cbn. eauto.
Qed.

(** What [exec] reports from the start of the string, for any pattern: the
    text of the match does not occur before the match, so that the first
    occurrence [replace] works on is the span of the match. *)
Lemma exec_first_occurrence (re : RegExp) (s : string)
  (m : RegExpExecArray) (li : nat) :
  exec re 0 s = (Some m, li) ->
  indexOf s (matched m) = Some (index m) /\
  li = index m + String.length (matched m) /\
  s = take (index m) s ++ matched m
        ++ skip (index m + String.length (matched m)) s.
Proof.
  intros He.
  assert (Hk : indexOf s (matched m) = Some (index m) /\
               li = index m + String.length (matched m)).
  { destruct (group re) as [cls|] eqn:Hg.
    - unfold exec in He. cbn [Nat.ltb Nat.leb skip] in He.
      destruct (search re 0 s) as [[k [m0 caps]]|] eqn:Hs; [|discriminate].
      injection He as <- <-. cbn [matched index].
      now destruct (search_group re cls s Hg _ _ _ _ Hs) as [Hk _].
    - destruct (exec_literal re s m li Hg He) as (-> & Hk & -> & _).
      now split. }
  destruct Hk as [Hk Hli]. repeat split; try assumption.
  apply indexOf_from_sound in Hk as [_ Hs].
  now rewrite Nat.sub_0_r in Hs.
Qed.

(** A turn of any loop of the table whose resolver returns a text without
    replacement pattern: that text takes the place of the span of the match,
    and the pattern is rewound. *)
Lemma apply_result_splices (W : Type) (p : Processor W) (s : string)
  (imgs : option (list string)) (m : RegExpExecArray) (li : nat)
  (r : ProcessorResult.t) (t : string) :
  exec (regex p) 0 s = (Some m, li) ->
  ProcessorResult.replacementText r = Some t ->
  pattern_free t = true ->
  let st' := apply_result
               {| working := s; lastIndex := 0; collected := imgs |}
               (matched m) li r in
  working st' = take (index m) s ++ t
                  ++ skip (index m + String.length (matched m)) s /\
  lastIndex st' = 0.
Proof.
  intros He Hr Ht.
  destruct (exec_first_occurrence _ _ _ _ He) as (Hk & _ & _).
  unfold apply_result. rewrite Hr. cbn [working lastIndex].
  rewrite (replace_at _ _ _ _ Hk).
  now rewrite GetSubstitution_pattern_free.
Qed.

(** The [$MEMORY@id] loop: the memory of the agent named after the marker,
    when it has no replacement pattern, takes the place of the marker as it
    is; a failing lookup puts [[Error with memory retrieval]] there. *)
Lemma MEMORY_step (W : Type) (env : Providers W) (fuel : nat)
  (agentId s : string) (imgs : option (list string))
  (m : RegExpExecArray) (li : nat) (w w1 : W) :
  exec (regex (MEMORY env)) 0 s = (Some m, li) ->
  let st := {| working := s; lastIndex := 0; collected := imgs |} in
  let put t := {| working := take (index m) s ++ t
                    ++ skip (index m + String.length (matched m)) s;
                  lastIndex := 0; collected := imgs |} in
  matched m = "$MEMORY@" ++ capture1 m /\
  (forall memory,
     getAgentMemory env (capture1 m) w = Normal memory w1 ->
     pattern_free memory = true ->
     drain (S fuel) (MEMORY env) agentId st w
     = drain fuel (MEMORY env) agentId (put memory) w1) /\
  (forall e,
     getAgentMemory env (capture1 m) w = Throw e w1 ->
     drain (S fuel) (MEMORY env) agentId st w
     = drain fuel (MEMORY env) agentId
         (put "[Error with memory retrieval]") w1).
Proof.
  intros He st put.
  assert (Hstep : forall t,
            pattern_free t = true ->
            MEMORY_handler env agentId s m w = Normal (replaceWith t) w1 ->
            drain (S fuel) (MEMORY env) agentId st w
            = drain fuel (MEMORY env) agentId (put t) w1).
  { intros t Ht Hh.
    erewrite drain_step; [|exact He|exact Hh]. f_equal.
    destruct (apply_result_splices W (MEMORY env) s imgs m li
                (replaceWith t) t He eq_refl Ht) as [Hw Hl].
    unfold st, put. unfold apply_result, replaceWith in *.
    cbn [ProcessorResult.replacementText ProcessorResult.images
         working lastIndex collected] in *.
    now rewrite Hw. }
  split; [|split].
  - clear Hstep. unfold exec in He. cbn [Nat.ltb Nat.leb skip] in He.
    destruct (search (regex (MEMORY env)) 0 s) as [[k [m0 caps]]|] eqn:Hs;
      [|discriminate].
    injection He as <- <-.
    destruct (search_group (regex (MEMORY env)) identifier_class s eq_refl
                _ _ _ _ Hs) as (_ & g & -> & -> & _).
    reflexivity.
  - intros memory Hm Hfree. apply (Hstep memory Hfree).
    run_handler. now rewrite Hm.
  - intros e Hm. apply (Hstep "[Error with memory retrieval]" eq_refl).
    run_handler. now rewrite Hm.
Qed.

(** C1. [preProcess] never ends by a thrown error, whatever the table of
    processors, the agent and the template; and when the body of its [try]
    block throws, outside the wrappers of the resolvers, it returns the
    original template, without the substitutions made and the attachments
    collected so far. *)
Theorem preProcess_never_raises (W : Type)
  (table : list (string * Processor W)) (fuel : nat)
  (agentId systemPrompt : string) (w : W) :
  (forall e w', preProcessWith fuel table agentId systemPrompt w <> Throw e w')
  /\
  (forall e w',
     preProcess_try fuel table agentId systemPrompt w = Throw e w' ->
     preProcessWith fuel table agentId systemPrompt w
     = Normal {| modifiedPrompt := systemPrompt; images := None |} w').
Proof.
  unfold preProcessWith, try_catch, ret. split.
  - intros e w'.
    now destruct (preProcess_try fuel table agentId systemPrompt w).
  - intros e w' H. now rewrite H.
Qed.

Lemma preProcess_never_raises_witness :
  preProcessWith 3
    (faulty_table (providers_of true ocr_failed (Some "aGVsbG8=")
                     (fun _ => None)))
    "agent" "look $SCREEN_64 then $FAULT" 0
  = Normal {| modifiedPrompt := "look $SCREEN_64 then $FAULT";
              images := None |} 2.
Proof.
  apply (proj2 (preProcess_never_raises nat
                  (faulty_table (providers_of true ocr_failed
                                   (Some "aGVsbG8=") (fun _ => None)))
                  3 "agent" "look $SCREEN_64 then $FAULT" 0)
           "resolver fault" 2).
  reflexivity.
Defined.

(** What the [try] block had computed when the fault of the run above
    happened: a substitution and an attachment, both dropped. *)
Example rollback_discards_partial_work :
  drain 3 (SCREEN_64 (providers_of true ocr_failed (Some "aGVsbG8=")
                        (fun _ => None)))
    "agent"
    {| working := "look $SCREEN_64 then $FAULT"; lastIndex := 0;
       collected := Some [] |} 0
  = Normal {| working := "look  then $FAULT"; lastIndex := 0;
              collected := Some ["aGVsbG8="] |} 2.
Proof. reflexivity. Qed.

(** C4, as stated, fails on the rollback path: the object returned from
    the [catch] block has no [images]. *)
Lemma images_undefined_on_rollback :
  preProcessWith 3
    (faulty_table (providers_of true ocr_failed None (fun _ => None)))
    "agent" "$FAULT" 0
  = Normal {| modifiedPrompt := "$FAULT"; images := None |} 0
  /\ ~ images_always_defined.
Proof.
  split; [reflexivity|].
  intros H.
  apply (H nat
           (faulty_table (providers_of true ocr_failed None (fun _ => None)))
           3 "agent" "$FAULT" 0 0
           {| modifiedPrompt := "$FAULT"; images := None |});
    reflexivity.
Qed.

(** C4, amended. A result returned by the [try] block has a defined
    [images]; the only other result is the one of the [catch] block, which
    has the original template and no [images]. *)
Theorem images_defined_unless_rollback (W : Type)
  (table : list (string * Processor W)) (fuel : nat)
  (agentId systemPrompt : string) (w w' : W) (r : PreProcessorResult) :
  preProcessWith fuel table agentId systemPrompt w = Normal r w' ->
  (preProcess_try fuel table agentId systemPrompt w = Normal r w' /\
   exists l, images r = Some l)
  \/
  (exists e, preProcess_try fuel table agentId systemPrompt w = Throw e w' /\
             r = {| modifiedPrompt := systemPrompt; images := None |}).
Proof.
  unfold preProcessWith, try_catch, ret.
  destruct (preProcess_try fuel table agentId systemPrompt w)
    as [r0 w0|e w0|] eqn:Htry; try discriminate.
  - intros [= -> ->]. left. split; [reflexivity|].
    unfold preProcess_try, bind, ret in Htry.
    destruct (for_each fuel table agentId _ w) as [st w1|e w1|] eqn:Hloop;
      try discriminate.
    injection Htry as <- <-. cbn [images].
    eapply for_each_collected; [exact Hloop|]. cbn. eauto.
  - intros [= <- <-]. right. exists e. now split.
Qed.

Lemma images_defined_unless_rollback_witness :
  (preProcess_try 3
     (faulty_table (providers_of true ocr_failed (Some "aGVsbG8=")
                      (fun _ => None)))
     "agent" "look $SCREEN_64" 0
   = Normal {| modifiedPrompt := "look "; images := Some ["aGVsbG8="] |} 2 /\
   exists l, images {| modifiedPrompt := "look ";
                       images := Some ["aGVsbG8="] |} = Some l)
  \/
  (exists e,
     preProcess_try 3
       (faulty_table (providers_of true ocr_failed (Some "aGVsbG8=")
                        (fun _ => None)))
       "agent" "look $SCREEN_64" 0 = Throw e 2 /\
     {| modifiedPrompt := "look "; images := Some ["aGVsbG8="] |}
     = {| modifiedPrompt := "look $SCREEN_64"; images := None |}).
Proof.
  apply (images_defined_unless_rollback nat
           (faulty_table (providers_of true ocr_failed (Some "aGVsbG8=")
                            (fun _ => None)))
           3 "agent" "look $SCREEN_64" 0 2).
  reflexivity.
Defined.

(** C8. A template without an occurrence of a directive pattern is
    returned unchanged with an empty list of images, the world untouched;
    so that processing the result once more returns it again. *)
Theorem preProcess_marker_free (W : Type) (env : Providers W) (fuel : nat)
  (agentId template : string) (w : W) :
  marker_free template = true ->
  preProcess env fuel agentId template w
  = Normal {| modifiedPrompt := template; images := Some [] |} w
  /\
  (forall r w',
     preProcess env fuel agentId template w = Normal r w' ->
     preProcess env fuel agentId (modifiedPrompt r) w' = Normal r w').
Proof.
  intros Hfree.
  assert (Hrun : preProcess env fuel agentId template w
                 = Normal {| modifiedPrompt := template;
                             images := Some [] |} w).
  { unfold marker_free, directive_patterns in Hfree. cbn [forallb] in Hfree.
    apply andb_true_iff in Hfree as [Hocr Hfree].
    apply andb_true_iff in Hfree as [Hmem Hfree].
    apply andb_true_iff in Hfree as [H64 _].
    apply negb_true_iff in Hocr, Hmem, H64.
    unfold preProcess, preProcessWith, preProcess_try, processors,
      try_catch.
    cbn [for_each working collected]. unfold bind.
    rewrite (drain_no_occurrence fuel (SCREEN_OCR env)) by exact Hocr.
    cbn [working collected].
    rewrite (drain_no_occurrence fuel (MEMORY env)) by exact Hmem.
    cbn [working collected].
    rewrite (drain_no_occurrence fuel (SCREEN_64 env)) by exact H64.
    reflexivity. }
  split; [exact Hrun|].
  intros r w' H. rewrite Hrun in H. injection H as <- <-.
  cbn [modifiedPrompt]. exact Hrun.
Qed.

Lemma preProcess_marker_free_witness :
  preProcess (providers_of true (ocr_text "HELLO") None (fun _ => None)) 0
    "agent" "Costs are in $ and mail goes to me@MEMORY, see SCREEN_OCR." 7
  = Normal {| modifiedPrompt :=
                "Costs are in $ and mail goes to me@MEMORY, see SCREEN_OCR.";
              images := Some [] |} 7.
Proof.
  apply (proj1 (preProcess_marker_free nat
                  (providers_of true (ocr_text "HELLO") None (fun _ => None))
                  0 "agent"
                  "Costs are in $ and mail goes to me@MEMORY, see SCREEN_OCR."
                  7 eq_refl)).
Defined.

(** C6. A turn of the [$SCREEN_64] loop whose capture succeeds with a
    payload that passes the validation: the span of the marker that [exec]
    found is replaced by the empty string, the pattern is rewound, and one
    entry, the payload, is appended to the images. Every turn of this loop
    starts with [lastIndex] at 0, as here: the loop is entered so and each
    turn rewinds the pattern. *)
Theorem SCREEN_64_success_step (W : Type) (env : Providers W) (fuel : nat)
  (agentId s : string) (imgs : option (list string))
  (m : RegExpExecArray) (li : nat) (w w1 w2 : W) (image : string) :
  exec (regex (SCREEN_64 env)) 0 s = (Some m, li) ->
  startScreenCapture env w = Normal true w1 ->
  captureScreenImage env w1 = Normal (Some image) w2 ->
  test_anchored_plus base64_class image = true ->
  let st := {| working := s; lastIndex := 0; collected := imgs |} in
  let st' := {| working := take (index m) s ++ "" ++ skip (index m + 10) s;
                lastIndex := 0;
                collected := Some (images_or_empty imgs ++ [image])%list |} in
  s = take (index m) s ++ "$SCREEN_64" ++ skip (index m + 10) s /\
  iteration (SCREEN_64 env) agentId st m li w = Normal st' w2 /\
  drain (S fuel) (SCREEN_64 env) agentId st w
  = drain fuel (SCREEN_64 env) agentId st' w2.
Proof.
  intros He Hs Hc Hv st st'.
  assert (Hh : SCREEN_64_handler env agentId s m w
               = Normal {| ProcessorResult.replacementText := Some "";
                           ProcessorResult.images := Some [image] |} w2).
  { run_handler. rewrite Hs. cbn [negb]. rewrite Hc.
    assert (Ht : truthy image = true).
    { apply test_anchored_plus_spec in Hv as [Hne _].
      destruct image; [congruence | reflexivity]. }
    now rewrite Ht, Hv. }
  destruct (exec_literal (regex (SCREEN_64 env)) s m li eq_refl He)
    as (Hm & Hk & _ & Hsplit).
  assert (Hst : apply_result st (matched m) li
                  {| ProcessorResult.replacementText := Some "";
                     ProcessorResult.images := Some [image] |} = st').
  { unfold st, st', apply_result.
    cbn [ProcessorResult.replacementText ProcessorResult.images
         working lastIndex collected].
    f_equal. rewrite Hm. exact (replace_at _ _ _ _ Hk). }
  split; [exact Hsplit|]. split.
  - unfold iteration, bind, ret. cbn [handler SCREEN_64 working st].
    rewrite Hh. now rewrite <- Hst.
  - rewrite <- Hst. now apply drain_step.
Qed.

Lemma SCREEN_64_success_step_witness :
  drain 1
    (SCREEN_64 (providers_of true ocr_failed (Some "aGVsbG8=")
                  (fun _ => None)))
    "agent"
    {| working := "a $SCREEN_64 b"; lastIndex := 0;
       collected := Some ["AAAA"] |} 0
  = Normal {| working := "a  b"; lastIndex := 0;
              collected := Some ["AAAA"; "aGVsbG8="] |} 2.
Proof.
  rewrite (proj2 (proj2 (SCREEN_64_success_step nat
             (providers_of true ocr_failed (Some "aGVsbG8=") (fun _ => None))
             0 "agent" "a $SCREEN_64 b" (Some ["AAAA"])
             (match_at "$SCREEN_64" 2 "a $SCREEN_64 b") 12 0 1 2 "aGVsbG8="
             eq_refl eq_refl eq_refl eq_refl))).
  reflexivity.
Defined.

(** C7. A turn of the [$SCREEN_64] loop whose capture ends with no image
    replaces the span of the marker by [[Error capturing screen]] and leaves
    the images as they are; and when no capture ever gives an image, the
    images of the result of [preProcess] are the empty list. *)
Theorem SCREEN_64_capture_failure (W : Type) (env : Providers W) :
  (forall (fuel : nat) (agentId s : string) (imgs : option (list string))
          (m : RegExpExecArray) (li : nat) (w w1 w2 : W) (v : option string),
     exec (regex (SCREEN_64 env)) 0 s = (Some m, li) ->
     startScreenCapture env w = Normal true w1 ->
     captureScreenImage env w1 = Normal v w2 ->
     truthy_value v = false ->
     let st := {| working := s; lastIndex := 0; collected := imgs |} in
     let st' := {| working := take (index m) s ++ "[Error capturing screen]"
                                ++ skip (index m + 10) s;
                   lastIndex := 0;
                   collected := imgs |} in
     s = take (index m) s ++ "$SCREEN_64" ++ skip (index m + 10) s /\
     iteration (SCREEN_64 env) agentId st m li w = Normal st' w2 /\
     drain (S fuel) (SCREEN_64 env) agentId st w
     = drain fuel (SCREEN_64 env) agentId st' w2)
  /\
  (capture_always_fails env ->
   forall (fuel : nat) (agentId template : string) (w w' : W)
          (r : PreProcessorResult),
     preProcess env fuel agentId template w = Normal r w' ->
     images r = Some []).
Proof.
  split.
  - intros fuel agentId s imgs m li w w1 w2 v He Hs Hc Hv st st'.
    assert (Hh : SCREEN_64_handler env agentId s m w
                 = Normal (replaceWith "[Error capturing screen]") w2).
    { run_handler. rewrite Hs. cbn [negb]. rewrite Hc.
      destruct v as [image|]; [|reflexivity].
      cbn in Hv. now rewrite Hv. }
    destruct (exec_literal (regex (SCREEN_64 env)) s m li eq_refl He)
      as (Hm & Hk & _ & Hsplit).
    assert (Hst : apply_result st (matched m) li
                    (replaceWith "[Error capturing screen]") = st').
    { unfold st, st', apply_result, replaceWith.
      cbn [ProcessorResult.replacementText ProcessorResult.images
           working lastIndex collected].
      f_equal. rewrite Hm. exact (replace_at _ _ _ _ Hk). }
    split; [exact Hsplit|]. split.
    + unfold iteration, bind, ret. cbn [handler SCREEN_64 working st].
      rewrite Hh. now rewrite <- Hst.
    + rewrite <- Hst. now apply drain_step.
  - intros Hfail fuel agentId template w w' r.
    rewrite preProcess_from_try. unfold preProcess_try, bind, ret.
    destruct (for_each fuel (processors env) agentId _ w)
      as [st w2|e2 w2|] eqn:Hloop; try discriminate.
    intros [= <- <-]. cbn [images].
    apply for_each_collected_unchanged in Hloop; [exact Hloop|].
    intros name p. now apply processors_attach_nothing.
Qed.

Lemma SCREEN_64_capture_failure_witness :
  drain 1
    (SCREEN_64 (providers_of true ocr_failed None (fun _ => None)))
    "agent"
    {| working := "a $SCREEN_64 b"; lastIndex := 0; collected := Some [] |} 0
  = Normal {| working := "a [Error capturing screen] b"; lastIndex := 0;
              collected := Some [] |} 2.
Proof.
  rewrite (proj2 (proj2 (proj1 (SCREEN_64_capture_failure nat
             (providers_of true ocr_failed None (fun _ => None)))
             0 "agent" "a $SCREEN_64 b" (Some [])
             (match_at "$SCREEN_64" 2 "a $SCREEN_64 b") 12 0 1 2 None
             eq_refl eq_refl eq_refl eq_refl))).
  reflexivity.
Defined.

(** C5, as stated, fails: the text put in place of a marker is scanned
    again, so that a text that completes the characters before it into a new
    marker is resolved once more. *)
Lemma SCREEN_OCR_rescan_counterexample :
  preProcess (providers_of true (ocr_text "EEN_OCR") None (fun _ => None)) 3
    "agent" "$SCR$SCREEN_OCR" 0
  = Normal {| modifiedPrompt := "EEN_OCR"; images := Some [] |} 4
  /\ ~ ocr_once_per_occurrence.
Proof.
  split; [reflexivity|].
  intros H.
  specialize (H nat
                (providers_of true (ocr_text "EEN_OCR") None (fun _ => None))
                3 "agent" ["$SCR"; ""] "EEN_OCR" 0 4
                {| modifiedPrompt := "EEN_OCR"; images := Some [] |}).
  assert (Hneq : "EEN_OCR" = "$SCREEN_OCR"); [|discriminate Hneq].
  apply H.
  - cbn; lia.
  - intros seg [<-|[<-|[]]]; reflexivity.
  - reflexivity.
  - split; intros w; [exists (S w) | exists None, (S w)]; reflexivity.
  - reflexivity.
Qed.

(** C5, amended. On a template made of pieces of text without dollar sign
    joined by [$SCREEN_OCR], when every OCR resolution succeeds with a
    non-empty text [T] without dollar sign, [preProcess] returns the pieces
    joined by [T], with no image, as soon as the fuel allows a turn of the
    loop for each marker. *)
Theorem SCREEN_OCR_each_occurrence_once (W : Type) (env : Providers W)
  (fuel : nat) (agentId : string) (segs : list string) (T : string) (w : W) :
  forallb dollar_free segs = true ->
  dollar_free T = true ->
  truthy T = true ->
  ocr_always_reads env T ->
  List.length segs <= S fuel ->
  exists w',
    preProcess env fuel agentId (String.concat "$SCREEN_OCR" segs) w
    = Normal {| modifiedPrompt := String.concat T segs;
                images := Some [] |} w'.
Proof.
  intros Hsegs HT Hne Hreads Hfuel.
  destruct (drain_segments (SCREEN_OCR env) "SCREEN_OCR" T agentId eq_refl HT
              (SCREEN_OCR_handler_reads W env T Hreads Hne agentId)
              segs "" (Some []) fuel w Hsegs eq_refl Hfuel) as [w1 H1].
  cbn [append] in H1.
  assert (Hfree : dollar_free (String.concat T segs) = true)
    by now apply concat_dollar_free.
  exists w1.
  unfold preProcess, preProcessWith, preProcess_try, processors, try_catch.
  cbn [for_each working collected]. unfold bind.
  rewrite H1. cbn [working collected].
  rewrite (drain_no_occurrence fuel (MEMORY env)).
  2:{ unfold occurs.
      now rewrite (search_dollar_free (regex (MEMORY env)) "MEMORY@" 0 _
                     eq_refl Hfree). }
  cbn [working collected].
  rewrite (drain_no_occurrence fuel (SCREEN_64 env)).
  2:{ unfold occurs.
      now rewrite (search_dollar_free (regex (SCREEN_64 env)) "SCREEN_64" 0 _
                     eq_refl Hfree). }
  reflexivity.
Qed.

Lemma SCREEN_OCR_each_occurrence_once_witness :
  exists w',
    preProcess (providers_of true (ocr_text "HELLO") None (fun _ => None)) 2
      "agent" "before $SCREEN_OCR mid $SCREEN_OCR after" 0
    = Normal {| modifiedPrompt := "before HELLO mid HELLO after";
                images := Some [] |} w'.
Proof.
  apply (SCREEN_OCR_each_occurrence_once nat
           (providers_of true (ocr_text "HELLO") None (fun _ => None))
           2 "agent" ["before "; " mid "; " after"] "HELLO" 0
           eq_refl eq_refl eq_refl).
  - split; intros w; [exists (S w) | exists None, (S w)]; reflexivity.
  - cbn; lia.
Defined.

(** C2: the text of the resolver goes through the replacement patterns of
    [String.prototype.replace] before it is spliced in. Here the OCR text
    [see $` and $'] is spliced as [see A  and  B]; the position and the
    rewinding of the pattern are as the claim says. *)
Theorem replacement_text_expanded_before_splice :
  drain 1
    (SCREEN_OCR (providers_of true (ocr_text "see $` and $'") None
                   (fun _ => None)))
    "agent"
    {| working := "A $SCREEN_OCR B"; lastIndex := 0; collected := Some [] |} 0
  = Normal {| working := "A see A  and  B B"; lastIndex := 0;
              collected := Some [] |} 2
  /\ "A see A  and  B B" <> "A " ++ "see $` and $'" ++ " B".
Proof. split; [reflexivity | discriminate]. Qed.

(** C3: a memory that holds [$$] is not put in the prompt character for
    character; the two dollar signs come out as one. *)
Theorem MEMORY_dollar_sequence_collapsed :
  preProcess
    (providers_of true ocr_failed None (memory_of "bot1" "price: $$5"))
    2 "agent" "Known: $MEMORY@bot1." 0
  = Normal {| modifiedPrompt := "Known: price: $5."; images := Some [] |} 1
  /\ "Known: price: $5." <> "Known: " ++ "price: $$5" ++ ".".
Proof. split; [reflexivity | discriminate]. Qed.

(** The sixth property listed for the engine: the two directives of the
    template are resolved in turn, and no image is collected. *)
Example ocr_then_memory :
  preProcess
    (providers_of true (ocr_text "HELLO") None (memory_of "bot1" "state=42"))
    1 "agent" "before $SCREEN_OCR after $MEMORY@bot1" 0
  = Normal {| modifiedPrompt := "before HELLO after state=42";
              images := Some [] |} 3.
Proof. reflexivity. Qed.

(** A resolver text that holds its own marker keeps the loop turning: no
    amount of fuel ends it. *)
Example marker_in_replacement_diverges (fuel calls : nat) :
  drain fuel
    (SCREEN_OCR (providers_of true (ocr_text "$SCREEN_OCR") None
                   (fun _ => None)))
    "agent"
    {| working := "$SCREEN_OCR"; lastIndex := 0; collected := Some [] |} calls
  = Timeout.
Proof.
  revert calls. induction fuel as [|fuel IH]; intros calls; [reflexivity|].
  erewrite drain_step; [|reflexivity|reflexivity].
  exact (IH (S (S calls))).
Qed.

End EngineFacts.

(* ================================================================== *)
(** ** More on the resolvers and the loops *)
(* ================================================================== *)

Module EngineExtras.
Import JsString JsRegExp Effects PreProcessor Properties Scenarios.
Import EngineVocabulary StringFacts RegExpFacts HandlerFacts EngineFacts.

(** X1. The outcomes of the [$SCREEN_OCR] resolver: a throw or a falsy
    stream of [startScreenCapture] and a throw of [captureFrameAndOCR] give
    [[Error with screen capture]]; an OCR result that is not a success, or
    has no text or an empty one, gives [[Error performing OCR]]; a success
    with a non-empty text gives that text. *)
Theorem SCREEN_OCR_outcomes (W : Type) (env : Providers W)
  (agentId prompt : string) (m : RegExpExecArray) (w : W) :
  (forall e w', startScreenCapture env w = Throw e w' ->
     SCREEN_OCR_handler env agentId prompt m w
     = Normal (replaceWith "[Error with screen capture]") w') /\
  (forall w', startScreenCapture env w = Normal false w' ->
     SCREEN_OCR_handler env agentId prompt m w
     = Normal (replaceWith "[Error with screen capture]") w') /\
  (forall w1 e w', startScreenCapture env w = Normal true w1 ->
     captureFrameAndOCR env w1 = Throw e w' ->
     SCREEN_OCR_handler env agentId prompt m w
     = Normal (replaceWith "[Error with screen capture]") w') /\
  (forall w1 r w', startScreenCapture env w = Normal true w1 ->
     captureFrameAndOCR env w1 = Normal r w' ->
     success r = false \/ text r = None \/ text r = Some "" ->
     SCREEN_OCR_handler env agentId prompt m w
     = Normal (replaceWith "[Error performing OCR]") w') /\
  (forall w1 r w' t, startScreenCapture env w = Normal true w1 ->
     captureFrameAndOCR env w1 = Normal r w' ->
     success r = true -> text r = Some t -> t <> "" ->
     SCREEN_OCR_handler env agentId prompt m w
     = Normal (replaceWith t) w').
Proof.
  split; [|split; [|split; [|split]]].
  - intros e w' H. run_handler. now rewrite H.
  - intros w' H. run_handler. now rewrite H.
  - intros w1 e w' H1 H2. run_handler. rewrite H1. cbn [negb].
    now rewrite H2.
  - intros w1 r w' H1 H2 Hr. run_handler. rewrite H1. cbn [negb].
    rewrite H2.
    destruct Hr as [Hr|[Hr|Hr]]; rewrite Hr; cbn;
      [reflexivity | | ]; now rewrite andb_false_r.
  - intros w1 r w' t H1 H2 Hs Ht Hne. run_handler. rewrite H1. cbn [negb].
    rewrite H2, Hs, Ht. cbn.
    destruct t; [congruence | reflexivity].
Qed.

Lemma SCREEN_OCR_outcomes_witness :
  SCREEN_OCR_handler (providers_of true (ocr_text "") None (fun _ => None))
    "agent" "see $SCREEN_OCR" (match_at "$SCREEN_OCR" 4 "see $SCREEN_OCR") 0
  = Normal (replaceWith "[Error performing OCR]") 2.
Proof.
  apply (proj1 (proj2 (proj2 (proj2 (SCREEN_OCR_outcomes nat
           (providers_of true (ocr_text "") None (fun _ => None))
           "agent" "see $SCREEN_OCR"
           (match_at "$SCREEN_OCR" 4 "see $SCREEN_OCR") 0))))
           1 (ocr_text "") 2 eq_refl eq_refl).
  right. right. reflexivity.
Defined.

Lemma search_here (re : RegExp) (i : nat) (s : string)
  (m : string * list string) :
  match_here re s = Some m -> search re i s = Some (i, m).
Proof. intros H. destruct s; cbn [search]; now rewrite H. Qed.

(** A pattern that begins with a dollar sign has no match that starts in a
    prefix without dollar signs. *)
Lemma search_skip_dollar_free (re : RegExp) (l pre s : string) (i : nat) :
  literal re = String "$" l -> dollar_free pre = true ->
  search re i (pre ++ s) = search re (i + String.length pre) s.
Proof.
  intros Hl. revert i. induction pre as [|c pre IH]; intros i Hpre.
  - cbn [append String.length]. now rewrite Nat.add_0_r.
  - cbn [dollar_free] in Hpre. apply andb_true_iff in Hpre as [Hc Hpre].
    apply negb_true_iff in Hc.
    cbn [append search String.length]. unfold match_here at 1.
    rewrite Hl. cbn [startsWith]. rewrite Ascii.eqb_sym, Hc. cbn [andb].
    rewrite (IH (S i) Hpre). f_equal. lia.
Qed.

Lemma span_append_stop (cls : ascii -> bool) (id rest : string) :
  span cls id = id -> span cls rest = "" -> span cls (id ++ rest) = id.
Proof.
  intros Hid Hrest. induction id as [|c id IH]; [exact Hrest|].
  cbn [span append] in Hid |- *.
  destruct (cls c); [|discriminate Hid].
  injection Hid as Hid. now rewrite (IH Hid).
Qed.

(** X2. The agent whose memory is looked up for a [$MEMORY@] marker is
    named by the longest run of identifier characters after the marker: the
    name ends at the first other character, or at the end of the text. *)
Theorem MEMORY_lookup_key (W : Type) (env : Providers W)
  (agentId pre id rest : string) (w : W) :
  dollar_free pre = true ->
  id <> "" ->
  span identifier_class id = id ->
  span identifier_class rest = "" ->
  let s := pre ++ "$MEMORY@" ++ id ++ rest in
  exists m,
    exec (regex (MEMORY env)) 0 s
    = (Some m, String.length pre + String.length ("$MEMORY@" ++ id)) /\
    index m = String.length pre /\
    matched m = "$MEMORY@" ++ id /\
    capture1 m = id /\
    MEMORY_handler env agentId s m w
    = match getAgentMemory env id w with
      | Normal memory w' => Normal (replaceWith memory) w'
      | Throw _ w' => Normal (replaceWith "[Error with memory retrieval]") w'
      | Timeout => Timeout
      end.
Proof.
  intros Hpre Hne Hid Hrest s.
  assert (Hm : match_here (regex (MEMORY env)) ("$MEMORY@" ++ id ++ rest)
               = Some ("$MEMORY@" ++ id, [id])).
  { unfold match_here. cbn [regex MEMORY literal group].
    rewrite startsWith_append, skip_append.
    rewrite (span_append_stop _ _ _ Hid Hrest).
    destruct id; [congruence | reflexivity]. }
  exists {| matched := "$MEMORY@" ++ id; captures := [id];
            index := String.length pre; input := s |}.
  repeat split.
  - unfold exec. cbn [Nat.ltb Nat.leb skip]. unfold s.
    rewrite (search_skip_dollar_free (regex (MEMORY env)) "MEMORY@" pre _ 0
               eq_refl Hpre).
    now rewrite (search_here _ _ _ _ Hm).
  - run_handler. cbn [capture1 captures nth].
    now destruct (getAgentMemory env id w).
Qed.

Lemma MEMORY_lookup_key_witness :
  exists m,
    exec (regex (MEMORY (providers_of true ocr_failed None
                           (memory_of "my" "notes"))))
      0 "Use $MEMORY@my-agent now"
    = (Some m, 14) /\
    index m = 4 /\ matched m = "$MEMORY@my" /\ capture1 m = "my" /\
    MEMORY_handler (providers_of true ocr_failed None (memory_of "my" "notes"))
      "agent" "Use $MEMORY@my-agent now" m 0
    = Normal (replaceWith "notes") 1.
Proof.
  apply (MEMORY_lookup_key nat
           (providers_of true ocr_failed None (memory_of "my" "notes"))
           "agent" "Use " "my" "-agent now" 0 eq_refl);
    [discriminate | reflexivity | reflexivity].
Defined.

Lemma count_dollar_append (a b : string) :
  count_dollar (a ++ b) = count_dollar a + count_dollar b.
Proof.
  induction a as [|c a IH]; [reflexivity|].
  cbn [append count_dollar]. rewrite IH. lia.
Qed.

Lemma count_dollar_free (s : string) :
  dollar_free s = true -> count_dollar s = 0.
Proof.
  induction s as [|c s IH]; [reflexivity|].
  cbn [dollar_free count_dollar]. intros H.
  apply andb_true_iff in H as [Hc Hs]. apply negb_true_iff in Hc.
  now rewrite Hc, (IH Hs).
Qed.

(** The text of a match of a pattern that begins with a dollar sign holds
    a dollar sign. *)
Lemma matched_has_dollar (re : RegExp) (l s : string)
  (m : RegExpExecArray) (li : nat) :
  literal re = String "$" l -> exec re 0 s = (Some m, li) ->
  1 <= count_dollar (matched m).
Proof.
  intros Hl He.
  assert (Hm : exists g, matched m = literal re ++ g).
  { destruct (group re) as [cls|] eqn:Hg.
    - unfold exec in He. cbn [Nat.ltb Nat.leb skip] in He.
      destruct (search re 0 s) as [[k [m0 caps]]|] eqn:Hs; [|discriminate].
      injection He as <- <-. cbn [matched].
      destruct (search_group re cls s Hg _ _ _ _ Hs) as (_ & g & -> & _).
      now exists g.
    - destruct (exec_literal re s m li Hg He) as (-> & _).
      exists "". now rewrite append_nil_r. }
  destruct Hm as [g ->]. rewrite Hl. cbn. lia.
Qed.

(** A turn that puts a text without dollar sign in place of a match of such
    a pattern lowers the number of dollar signs of the working text. *)
Lemma apply_result_fewer_dollars (W : Type) (p : Processor W)
  (l s : string) (imgs : option (list string)) (m : RegExpExecArray)
  (li : nat) (r : ProcessorResult.t) (t : string) :
  literal (regex p) = String "$" l ->
  exec (regex p) 0 s = (Some m, li) ->
  ProcessorResult.replacementText r = Some t ->
  dollar_free t = true ->
  let st' := apply_result
               {| working := s; lastIndex := 0; collected := imgs |}
               (matched m) li r in
  S (count_dollar (working st')) <= count_dollar s /\ lastIndex st' = 0.
Proof.
  intros Hl He Hr Ht.
  destruct (apply_result_splices W p s imgs m li r t He Hr
              (dollar_free_pattern_free t Ht)) as [Hw H0].
  cbv zeta. rewrite Hw, H0. split; [|reflexivity].
  destruct (exec_first_occurrence _ _ _ _ He) as (_ & _ & Hs).
  pose proof (matched_has_dollar _ _ _ _ _ Hl He) as Hone.
  rewrite Hs at 3.
  rewrite !count_dollar_append, (count_dollar_free t Ht). lia.
Qed.

(** A loop whose pattern begins with a dollar sign and whose resolver always
    returns a text without dollar sign ends within as many turns as the
    working text has dollar signs. *)
Lemma drain_terminates (W : Type) (p : Processor W) (l agentId : string) :
  literal (regex p) = String "$" l ->
  (forall prompt m w,
     exists r w' t,
       handler p agentId prompt m w = Normal r w' /\
       ProcessorResult.replacementText r = Some t /\
       dollar_free t = true) ->
  forall (fuel : nat) (s : string) (imgs : option (list string)) (w : W),
    count_dollar s <= fuel ->
    exists st' w',
      drain fuel p agentId
        {| working := s; lastIndex := 0; collected := imgs |} w
      = Normal st' w' /\
      lastIndex st' = 0 /\
      count_dollar (working st') <= count_dollar s /\
      occurs (regex p) (working st') = false.
Proof.
  intros Hl Hh. induction fuel as [|fuel IH]; intros s imgs w Hfuel.
  - destruct (exec (regex p) 0 s) as [[m|] li] eqn:He.
    + destruct (exec_first_occurrence _ _ _ _ He) as (_ & _ & Hs).
      pose proof (matched_has_dollar _ _ _ _ _ Hl He) as Hone.
      rewrite Hs in Hfuel. rewrite !count_dollar_append in Hfuel. lia.
    + destruct (exec_none _ _ _ He) as [-> Hocc].
      eexists _, w. cbn [drain lastIndex working]. rewrite He.
      repeat split; [reflexivity | exact Hocc].
  - destruct (exec (regex p) 0 s) as [[m|] li] eqn:He.
    + destruct (Hh s m w) as (r & w1 & t & Hr & Ht & Hfree).
      destruct (apply_result_fewer_dollars W p l s imgs m li r t
                  Hl He Ht Hfree) as [Hlt H0].
      remember (apply_result
                  {| working := s; lastIndex := 0; collected := imgs |}
                  (matched m) li r) as st1 eqn:Est1.
      destruct st1 as [s1 li1 imgs1]. cbn [working lastIndex] in Hlt, H0.
      subst li1.
      destruct (IH s1 imgs1 w1) as (st' & w' & Hrun & Hli & Hcount & Hocc);
        [lia|].
      exists st', w'. erewrite drain_step; [|exact He|exact Hr].
      rewrite <- Est1. repeat split; try assumption. lia.
    + destruct (exec_none _ _ _ He) as [-> Hocc].
      eexists _, w. cbn [drain lastIndex working]. rewrite He.
      repeat split; [reflexivity | exact Hocc].
Qed.

Lemma SCREEN_64_handler_dollar_free (W : Type) (env : Providers W)
  (agentId prompt : string) (m : RegExpExecArray) (w : W) :
  (forall w, startScreenCapture env w <> Timeout) ->
  (forall w, captureScreenImage env w <> Timeout) ->
  exists r w' t,
    SCREEN_64_handler env agentId prompt m w = Normal r w' /\
    ProcessorResult.replacementText r = Some t /\ dollar_free t = true.
Proof.
  intros Hs Hc. run_handler.
  destruct (startScreenCapture env w) as [[|] w1|e w1|] eqn:E1; cbn [negb];
    [ | do 3 eexists; repeat split; reflexivity ..
      | now apply Hs in E1 ].
  destruct (captureScreenImage env w1) as [[image|] w2|e w2|] eqn:E2;
    [ | do 3 eexists; repeat split; reflexivity ..
      | now apply Hc in E2 ].
  destruct (truthy image);
    [destruct (test_anchored_plus base64_class image); cbn [negb]|];
    do 3 eexists; repeat split; reflexivity.
Qed.

Lemma SCREEN_OCR_handler_dollar_free (W : Type) (env : Providers W)
  (agentId prompt : string) (m : RegExpExecArray) (w : W) :
  never_hangs env -> texts_dollar_free env ->
  exists r w' t,
    SCREEN_OCR_handler env agentId prompt m w = Normal r w' /\
    ProcessorResult.replacementText r = Some t /\ dollar_free t = true.
Proof.
  intros (Hs & Ho & _) [Hfree _]. run_handler.
  destruct (startScreenCapture env w) as [[|] w1|e w1|] eqn:E1; cbn [negb];
    [ | do 3 eexists; repeat split; reflexivity ..
      | now apply Hs in E1 ].
  destruct (captureFrameAndOCR env w1) as [r w2|e w2|] eqn:E2;
    [ | do 3 eexists; repeat split; reflexivity
      | now apply Ho in E2 ].
  destruct (success r && truthy_value (text r)) eqn:E;
    [|do 3 eexists; repeat split; reflexivity].
  apply andb_true_iff in E as [_ E].
  destruct (text r) as [t|] eqn:Et; [|discriminate E].
  exists {| ProcessorResult.replacementText := Some t;
            ProcessorResult.images := None |}, w2, t.
  repeat split. exact (Hfree _ _ _ _ E2 Et).
Qed.

Lemma MEMORY_handler_dollar_free (W : Type) (env : Providers W)
  (agentId prompt : string) (m : RegExpExecArray) (w : W) :
  never_hangs env -> texts_dollar_free env ->
  exists r w' t,
    MEMORY_handler env agentId prompt m w = Normal r w' /\
    ProcessorResult.replacementText r = Some t /\ dollar_free t = true.
Proof.
  intros (_ & _ & _ & Hm) [_ Hfree]. run_handler.
  destruct (getAgentMemory env (capture1 m) w) as [memory w1|e w1|] eqn:E;
    [ | do 3 eexists; repeat split; reflexivity
      | now apply Hm in E ].
  exists (replaceWith memory), w1, memory.
  repeat split. exact (Hfree _ _ _ _ E).
Qed.

(** X3. The [$SCREEN_64] loop always ends, within as many turns as the
    working text has dollar signs, provided the two screen providers
    return: each turn takes a dollar sign away. It ends on a text without
    the marker. *)
Theorem SCREEN_64_loop_terminates (W : Type) (env : Providers W)
  (fuel : nat) (agentId s : string) (imgs : option (list string)) (w : W) :
  (forall w, startScreenCapture env w <> Timeout) ->
  (forall w, captureScreenImage env w <> Timeout) ->
  count_dollar s <= fuel ->
  exists st' w',
    drain fuel (SCREEN_64 env) agentId
      {| working := s; lastIndex := 0; collected := imgs |} w
    = Normal st' w' /\
    occurs (regex (SCREEN_64 env)) (working st') = false /\
    count_dollar (working st') <= count_dollar s.
Proof.
  intros Hs Hc Hfuel.
  destruct (drain_terminates W (SCREEN_64 env) "SCREEN_64" agentId eq_refl
              (fun prompt m w =>
                 SCREEN_64_handler_dollar_free W env agentId prompt m w Hs Hc)
              fuel s imgs w Hfuel) as (st' & w' & Hrun & _ & Hcount & Hocc).
  now exists st', w'.
Qed.

Lemma SCREEN_64_loop_terminates_witness :
  exists st' w',
    drain 2
      (SCREEN_64 (providers_of true ocr_failed (Some "aGVsbG8=")
                    (fun _ => None)))
      "agent"
      {| working := "$SCREEN$SCREEN_64_64"; lastIndex := 0;
         collected := Some [] |} 0
    = Normal st' w' /\
    occurs {| literal := "$SCREEN_64"; group := None |} (working st') = false
    /\ count_dollar (working st') <= 2.
Proof.
  apply (SCREEN_64_loop_terminates nat
           (providers_of true ocr_failed (Some "aGVsbG8=") (fun _ => None))
           2 "agent" "$SCREEN$SCREEN_64_64" (Some []) 0).
  - discriminate.
  - discriminate.
  - cbn. lia.
Defined.

(** X4. When no provider call hangs and the texts of the OCR and of the
    agent database hold no dollar sign, [preProcess] returns as soon as the
    fuel allows one turn for each dollar sign of the template. The prompt it
    returns has no more dollar signs than the template and no [$SCREEN_64]
    marker, and its images are defined. *)
Theorem preProcess_terminates (W : Type) (env : Providers W) (fuel : nat)
  (agentId template : string) (w : W) :
  never_hangs env ->
  texts_dollar_free env ->
  count_dollar template <= fuel ->
  exists r w',
    preProcess env fuel agentId template w = Normal r w' /\
    count_dollar (modifiedPrompt r) <= count_dollar template /\
    occurs (regex (SCREEN_64 env)) (modifiedPrompt r) = false /\
    exists l, images r = Some l.
Proof.
  intros Hhang Hfree Hfuel.
  destruct (drain_terminates W (SCREEN_OCR env) "SCREEN_OCR" agentId eq_refl
              (fun prompt m w =>
                 SCREEN_OCR_handler_dollar_free W env agentId prompt m w
                   Hhang Hfree)
              fuel template (Some []) w Hfuel)
    as ([s1 li1 imgs1] & w1 & Hrun1 & H01 & Hc1 & _).
  cbn [lastIndex working] in H01, Hc1. subst li1.
  destruct (drain_terminates W (MEMORY env) "MEMORY@" agentId eq_refl
              (fun prompt m w =>
                 MEMORY_handler_dollar_free W env agentId prompt m w
                   Hhang Hfree)
              fuel s1 imgs1 w1 ltac:(lia))
    as ([s2 li2 imgs2] & w2 & Hrun2 & H02 & Hc2 & _).
  cbn [lastIndex working] in H02, Hc2. subst li2.
  destruct Hhang as (Hs & _ & Hc & _).
  destruct (drain_terminates W (SCREEN_64 env) "SCREEN_64" agentId eq_refl
              (fun prompt m w =>
                 SCREEN_64_handler_dollar_free W env agentId prompt m w Hs Hc)
              fuel s2 imgs2 w2 ltac:(lia))
    as ([s3 li3 imgs3] & w3 & Hrun3 & _ & Hc3 & Hocc).
  cbn [working] in Hocc, Hc3.
  assert (Hrun : preProcess env fuel agentId template w
                 = Normal {| modifiedPrompt := s3; images := imgs3 |} w3).
  { rewrite preProcess_from_try.
    unfold preProcess_try, processors.
    cbn [for_each working collected]. unfold bind.
    rewrite Hrun1. cbn [working collected].
    rewrite Hrun2. cbn [working collected].
    now rewrite Hrun3. }
  exists {| modifiedPrompt := s3; images := imgs3 |}, w3.
  cbn [modifiedPrompt]. repeat split; [exact Hrun | lia | exact Hocc |].
  exact (preProcess_images_defined W env fuel agentId template w w3 _ Hrun).
Qed.

Lemma preProcess_terminates_witness :
  exists r w',
    preProcess
      (providers_of true (ocr_text "HELLO") (Some "aGVsbG8=")
         (memory_of "bot1" "state=42"))
      3 "agent" "a $SCREEN_OCR b $MEMORY@bot1 c $SCREEN_64" 0
    = Normal r w' /\
    count_dollar (modifiedPrompt r)
    <= count_dollar "a $SCREEN_OCR b $MEMORY@bot1 c $SCREEN_64" /\
    occurs {| literal := "$SCREEN_64"; group := None |} (modifiedPrompt r)
    = false /\
    exists l, images r = Some l.
Proof.
  apply (preProcess_terminates nat
           (providers_of true (ocr_text "HELLO") (Some "aGVsbG8=")
              (memory_of "bot1" "state=42"))
           3 "agent" "a $SCREEN_OCR b $MEMORY@bot1 c $SCREEN_64" 0).
  - repeat split; try discriminate.
    intros id w. cbn. destruct (memory_of "bot1" "state=42" id); discriminate.
  - split.
    + intros w r w' t [= <- _] [= <-]. reflexivity.
    + intros id w memory w'. cbn. unfold memory_of.
      destruct (String.eqb id "bot1"); [|discriminate].
      intros [= <- _]. reflexivity.
  - cbn. lia.
Defined.

(** A pattern has no match in pieces of text without dollar sign joined by
    a marker of another directive. *)
Lemma search_joined_other (re : RegExp) (l l' : string) :
  literal re = String "$" l ->
  dollar_free l' = true ->
  (forall rest, match_here re (String "$" l' ++ rest) = None) ->
  forall (segs : list string) (pre : string) (i : nat),
    forallb dollar_free segs = true -> dollar_free pre = true ->
    search re i (pre ++ String.concat (String "$" l') segs) = None.
Proof.
  intros Hl Hl' Hother.
  induction segs as [|x xs IH]; intros pre i Hsegs Hpre.
  - apply (search_dollar_free re l); [exact Hl|].
    now rewrite dollar_free_append, Hpre.
  - cbn [forallb] in Hsegs. apply andb_true_iff in Hsegs as [Hx Hxs].
    destruct xs as [|y ys].
    + apply (search_dollar_free re l); [exact Hl|].
      cbn [String.concat]. now rewrite dollar_free_append, Hpre, Hx.
    + change (String.concat (String "$" l') (x :: y :: ys))
        with (x ++ String "$" l' ++ String.concat (String "$" l') (y :: ys)).
      rewrite <- append_assoc.
      rewrite (search_skip_dollar_free re l (pre ++ x) _ i Hl)
        by now rewrite dollar_free_append, Hpre, Hx.
      pose proof (Hother (String.concat (String "$" l') (y :: ys))) as Ho.
      cbn [append] in Ho. cbn [append search]. rewrite Ho.
      apply IH; assumption.
Qed.

Lemma SCREEN_64_handler_success (W : Type) (env : Providers W)
  (agentId prompt : string) (m : RegExpExecArray) (w w1 w2 : W)
  (image : string) :
  startScreenCapture env w = Normal true w1 ->
  captureScreenImage env w1 = Normal (Some image) w2 ->
  test_anchored_plus base64_class image = true ->
  SCREEN_64_handler env agentId prompt m w
  = Normal {| ProcessorResult.replacementText := Some "";
              ProcessorResult.images := Some [image] |} w2.
Proof.
  intros Hs Hc Hv. run_handler. rewrite Hs. cbn [negb]. rewrite Hc.
  assert (Ht : truthy image = true).
  { apply test_anchored_plus_spec in Hv as [Hne _].
    destruct image; [congruence | reflexivity]. }
  now rewrite Ht, Hv.
Qed.

(** The [$SCREEN_64] loop on pieces of text joined by the marker, when the
    successive captures succeed: the pieces are put together and the images
    are appended in the order of the captures. *)
Lemma drain_captures (W : Type) (env : Providers W) (agentId : string) :
  forall (imgs : list string) (segs : list string) (pre : string)
         (acc : list string) (fuel : nat) (w w' : W),
    forallb dollar_free segs = true -> dollar_free pre = true ->
    List.length segs = S (List.length imgs) ->
    captures_in_order env imgs w w' ->
    List.length imgs <= fuel ->
    drain fuel (SCREEN_64 env) agentId
      {| working := pre ++ String.concat "$SCREEN_64" segs; lastIndex := 0;
         collected := Some acc |} w
    = Normal {| working := pre ++ String.concat "" segs; lastIndex := 0;
                collected := Some (acc ++ imgs)%list |} w'.
Proof.
  induction imgs as [|image imgs IH];
    intros segs pre acc fuel w w' Hsegs Hpre Hlen Hcap Hfuel.
  - destruct segs as [|x [|y ys]]; try discriminate Hlen.
    cbn [captures_in_order] in Hcap. subst w'.
    cbn [forallb] in Hsegs. apply andb_true_iff in Hsegs as [Hx _].
    cbn [String.concat]. rewrite app_nil_r.
    apply drain_no_occurrence. unfold occurs.
    rewrite (search_dollar_free (regex (SCREEN_64 env)) "SCREEN_64" 0
               (pre ++ x) eq_refl); [reflexivity|].
    now rewrite dollar_free_append, Hpre, Hx.
  - destruct segs as [|x [|y ys]]; try discriminate Hlen.
    destruct fuel as [|fuel]; [cbn in Hfuel; lia|].
    cbn [forallb] in Hsegs. apply andb_true_iff in Hsegs as [Hx Hxs].
    destruct Hcap as (w1 & w2 & Hs & Hc & Hv & Hcap).
    change (String.concat "$SCREEN_64" (x :: y :: ys))
      with (x ++ "$SCREEN_64" ++ String.concat "$SCREEN_64" (y :: ys)).
    change (String.concat "" (x :: y :: ys))
      with (x ++ "" ++ String.concat "" (y :: ys)).
    set (rest := String.concat "$SCREEN_64" (y :: ys)).
    rewrite <- (append_assoc pre x ("$SCREEN_64" ++ rest)).
    assert (Hpx : dollar_free (pre ++ x) = true)
      by now rewrite dollar_free_append, Hpre, Hx.
    pose proof (exec_literal_dollar (regex (SCREEN_64 env)) "SCREEN_64"
                  (pre ++ x) rest eq_refl eq_refl Hpx) as He.
    erewrite drain_step;
      [|exact He
       |exact (SCREEN_64_handler_success W env agentId _ _ w w1 w2 image
                 Hs Hc Hv)].
    unfold apply_result.
    cbn [ProcessorResult.replacementText ProcessorResult.images
         working lastIndex collected matched images_or_empty].
    rewrite (replace_dollar (pre ++ x) "SCREEN_64" rest "" Hpx eq_refl).
    cbn [append]. unfold rest.
    rewrite (IH (y :: ys) (pre ++ x) (acc ++ [image])%list fuel w2 w'
               Hxs Hpx); [| cbn in Hlen |- *; lia | exact Hcap
                          | cbn in Hfuel; lia].
    now rewrite append_assoc, <- app_assoc.
Qed.

(** X5. On a template made of pieces of text without dollar sign joined by
    [$SCREEN_64] markers, when the capture made for each marker succeeds,
    [preProcess] returns the pieces put together, and the captured images
    in the order of the markers, one for each. *)
Theorem images_in_capture_order (W : Type) (env : Providers W) (fuel : nat)
  (agentId : string) (segs imgs : list string) (w w' : W) :
  forallb dollar_free segs = true ->
  List.length segs = S (List.length imgs) ->
  captures_in_order env imgs w w' ->
  List.length imgs <= fuel ->
  preProcess env fuel agentId (String.concat "$SCREEN_64" segs) w
  = Normal {| modifiedPrompt := String.concat "" segs;
              images := Some imgs |} w'.
Proof.
  intros Hsegs Hlen Hcap Hfuel.
  unfold preProcess, preProcessWith, preProcess_try, processors, try_catch.
  cbn [for_each working collected]. unfold bind.
  rewrite (drain_no_occurrence fuel (SCREEN_OCR env)).
  2:{ pose proof (search_joined_other (regex (SCREEN_OCR env))
                    "SCREEN_OCR" "SCREEN_64" eq_refl eq_refl
                    (fun rest => eq_refl) segs "" 0 Hsegs eq_refl) as Hnone.
      cbn [append] in Hnone. unfold occurs. now rewrite Hnone. }
  cbn [working collected].
  rewrite (drain_no_occurrence fuel (MEMORY env)).
  2:{ pose proof (search_joined_other (regex (MEMORY env))
                    "MEMORY@" "SCREEN_64" eq_refl eq_refl
                    (fun rest => eq_refl) segs "" 0 Hsegs eq_refl) as Hnone.
      cbn [append] in Hnone. unfold occurs. now rewrite Hnone. }
  cbn [working collected].
  pose proof (drain_captures W env agentId imgs segs "" [] fuel w w'
                Hsegs eq_refl Hlen Hcap Hfuel) as Hrun.
  cbn [append app] in Hrun. now rewrite Hrun.
Qed.

Lemma images_in_capture_order_witness :
  preProcess camera_roll 2 "agent" "first $SCREEN_64 second $SCREEN_64 end"
    ["AAAA"; "BBBB"; "CCCC"]
  = Normal {| modifiedPrompt := "first  second  end";
              images := Some ["AAAA"; "BBBB"] |} ["CCCC"].
Proof.
  apply (images_in_capture_order (list string) camera_roll 2 "agent"
           ["first "; " second "; " end"] ["AAAA"; "BBBB"]
           ["AAAA"; "BBBB"; "CCCC"] ["CCCC"] eq_refl eq_refl).
  - cbn. repeat (eexists; repeat split).
  - cbn. lia.
Defined.









(** What the run above collects: one image for each of the two markers. *)
Example attach_only_run :
  drain 17 STAMP "agent"
    {| working := "a $STAMP b $STAMP"; lastIndex := 0; collected := Some [] |}
    0
  = Normal {| working := "a $STAMP b $STAMP"; lastIndex := 0;
              collected := Some ["AAAA"; "AAAA"] |} 2.
Proof. reflexivity. Qed.

(** X7. The OCR provider has no part in the result for a template without
    [$SCREEN_OCR] marker, whatever the memories and the captures bring in:
    the [$SCREEN_OCR] loop runs before the other two and is not run again. *)
Theorem OCR_only_for_template_markers (W : Type) (env : Providers W)
  (ocr : M W OCRResult) (fuel : nat) (agentId template : string) (w : W) :
  occurs (regex (SCREEN_OCR env)) template = false ->
  preProcess (with_ocr env ocr) fuel agentId template w
  = preProcess env fuel agentId template w.
Proof.
  intros Hocc.
  unfold preProcess, preProcessWith, preProcess_try, processors, try_catch.
  cbn [for_each working collected]. unfold bind.
  rewrite (drain_no_occurrence fuel (SCREEN_OCR env)) by exact Hocc.
  rewrite (drain_no_occurrence fuel (SCREEN_OCR (with_ocr env ocr)))
    by exact Hocc.
  reflexivity.
Qed.

Lemma OCR_only_for_template_markers_witness :
  preProcess
    (with_ocr (providers_of true ocr_failed None
                 (memory_of "bot1" "read $SCREEN_OCR"))
       (tick (ocr_text "HELLO")))
    2 "agent" "Notes: $MEMORY@bot1" 0
  = preProcess
      (providers_of true ocr_failed None (memory_of "bot1" "read $SCREEN_OCR"))
      2 "agent" "Notes: $MEMORY@bot1" 0.
Proof.
  apply (OCR_only_for_template_markers nat
           (providers_of true ocr_failed None
              (memory_of "bot1" "read $SCREEN_OCR"))
           (tick (ocr_text "HELLO")) 2 "agent" "Notes: $MEMORY@bot1" 0).
  reflexivity.
Defined.

(** The marker that the memory brought in stays in the prompt. *)
Example marker_from_memory_stays :
  preProcess
    (providers_of true (ocr_text "HELLO") None
       (memory_of "bot1" "read $SCREEN_OCR"))
    2 "agent" "Notes: $MEMORY@bot1" 0
  = Normal {| modifiedPrompt := "Notes: read $SCREEN_OCR";
              images := Some [] |} 1.
Proof. reflexivity. Qed.

End EngineExtras.

(* ================================================================== *)
(** ** Facts about the patterns with anchors and quantifiers *)
(* ================================================================== *)

Module PatternFacts.
Import JsString JsRegExp JsPattern GenerateAgent PatternVocabulary.
Import Properties StringFacts.

Lemma whole_push_all (x : string) (a : Acc) :
  whole (push_all x a) = whole a ++ x.
Proof.
  revert a. induction x as [|c x IH]; intros a; cbn [push_all].
  - now rewrite append_nil_r.
  - rewrite IH. cbn [push whole]. now rewrite append_assoc.
Qed.

Lemma closed_push_all (x : string) (a : Acc) :
  closed (push_all x a) = closed a.
Proof.
  revert a. induction x as [|c x IH]; intros a; cbn [push_all];
    [reflexivity | now rewrite IH].
Qed.

Lemma current_push_all (x : string) (a : Acc) :
  current (push_all x a)
  = match current a with Some g => Some (g ++ x) | None => None end.
Proof.
  revert a. induction x as [|c x IH]; intros a; cbn [push_all].
  - destruct (current a); [now rewrite append_nil_r | reflexivity].
  - rewrite IH. cbn [push current].
    destruct (current a); [now rewrite append_assoc | reflexivity].
Qed.

Lemma all_chars_append (cls : ascii -> bool) (a b : string) :
  all_chars cls (a ++ b) = all_chars cls a && all_chars cls b.
Proof.
  induction a as [|c a IH]; [reflexivity|].
  cbn [append all_chars]. now rewrite IH, andb_assoc.
Qed.

(** What a greedy run that succeeds has taken: characters of the class,
    after which the continuation succeeds. *)
Lemma greedy_inv (cls : ascii -> bool)
  (k : option ascii -> string -> Acc -> option (string * list string))
  (s : string) :
  forall prev a r,
    greedy cls k prev s a = Some r ->
    exists x y, s = x ++ y /\ all_chars cls x = true /\
                k (last_of prev x) y (push_all x a) = Some r.
Proof.
  induction s as [|c s IH]; intros prev a r H; cbn [greedy] in H.
  - now exists "", "".
  - destruct (cls c) eqn:Hc; [|now exists "", (String c s)].
    destruct (greedy cls k (Some c) s (push c a)) as [r'|] eqn:Hg.
    + injection H as <-.
      destruct (IH _ _ _ Hg) as (x & y & -> & Hx & Hk).
      exists (String c x), y. cbn [all_chars]. now rewrite Hc, Hx.
    + now exists "", (String c s).
Qed.

(** A greedy run takes the whole run of the class when the continuation
    succeeds after it. *)
Lemma greedy_max (cls : ascii -> bool)
  (k : option ascii -> string -> Acc -> option (string * list string))
  (x y : string) :
  forall prev a r,
    all_chars cls x = true -> stops cls y = true ->
    k (last_of prev x) y (push_all x a) = Some r ->
    greedy cls k prev (x ++ y) a = Some r.
Proof.
  induction x as [|c x IH]; intros prev a r Hx Hy Hk.
  - cbn [append last_of push_all] in *.
    destruct y as [|d y]; [exact Hk|].
    cbn [stops] in Hy. apply negb_true_iff in Hy.
    cbn [greedy]. now rewrite Hy.
  - cbn [all_chars] in Hx. apply andb_true_iff in Hx as [Hc Hx].
    cbn [append greedy]. rewrite Hc.
    now rewrite (IH (Some c) (push c a) r Hx Hy Hk).
Qed.

(** The terms of a literal match that literal, and nothing else. *)
Lemma run_lit (L : string) (ts : list Term) (ml : bool) (s : string) :
  forall prev a,
    run (lit L ++ ts) ml prev (L ++ s) a
    = run ts ml (last_of prev L) s (push_all L a).
Proof.
  induction L as [|c L IH]; intros prev a; [reflexivity|].
  cbn [lit app append run]. rewrite Ascii.eqb_refl.
  now rewrite IH.
Qed.

Lemma run_lit_inv (L : string) (ts : list Term) (ml : bool) :
  forall prev s a r,
    run (lit L ++ ts) ml prev s a = Some r ->
    exists s', s = L ++ s' /\
               run ts ml (last_of prev L) s' (push_all L a) = Some r.
Proof.
  induction L as [|c L IH]; intros prev s a r H.
  - now exists s.
  - cbn [lit app run] in H. destruct s as [|d s]; [discriminate|].
    destruct (Ascii.eqb c d) eqn:Hc; [|discriminate].
    apply Ascii.eqb_eq in Hc; subst d.
    destruct (IH _ _ _ _ H) as (s' & -> & Hr). now exists s'.
Qed.

(** A pattern that begins with [^] and has no [m] flag matches at the
    start of the input only. *)
Lemma find_anchored (p : Pattern) (ts : list Term) (s : string) :
  terms p = Bol :: ts -> multiline p = false ->
  forall c i, find p (Some c) i s = None.
Proof.
  intros Ht Hm. induction s as [|d s IH]; intros c i; cbn [find];
    rewrite Ht, Hm; cbn [run at_bol andb]; [reflexivity | apply IH].
Qed.

Lemma match_pattern_anchored (p : Pattern) (ts : list Term) (s : string) :
  terms p = Bol :: ts -> multiline p = false ->
  match_pattern p s
  = match run ts false None s start_acc with
    | Some (m0, caps) =>
        Some {| matched := m0; captures := caps; index := 0; input := s |}
    | None => None
    end.
Proof.
  intros Ht Hm. unfold match_pattern.
  destruct s as [|c s]; cbn [find]; rewrite Ht, Hm; cbn [run at_bol].
  - now destruct (run ts false None "" start_acc) as [[m0 caps]|].
  - destruct (run ts false None (String c s) start_acc) as [[m0 caps]|];
      [reflexivity|].
    now rewrite (find_anchored p ts s Ht Hm).
Qed.

Ltac acc_simpl :=
  repeat (cbn [whole closed current push open_group close_group start_acc
               app];
          try rewrite whole_push_all;
          try rewrite closed_push_all;
          try rewrite current_push_all).

(** The pattern of the key and value lines on a line [key: value]. *)
Lemma key_value_run (k ws v : string) :
  k <> "" -> all_chars is_key_char k = true ->
  all_chars is_white_space ws = true ->
  v <> "" -> stops is_white_space v = true -> single_line v = true ->
  match_pattern key_value_line (k ++ ":" ++ ws ++ v)
  = Some {| matched := k ++ ":" ++ ws ++ v; captures := [k; v]; index := 0;
            input := k ++ ":" ++ ws ++ v |}.
Proof.
  intros Hk Hkey Hws Hv Hstop Hline.
  rewrite (match_pattern_anchored key_value_line _ _ eq_refl eq_refl).
  destruct k as [|c k]; [congruence|].
  destruct v as [|d v]; [congruence|].
  cbn [all_chars] in Hkey. apply andb_true_iff in Hkey as [Hc Hkey].
  unfold single_line in Hline. cbn [all_chars] in Hline.
  apply andb_true_iff in Hline as [Hd Hline].
  cbn [append run terms key_value_line]. rewrite Hc.
  erewrite (greedy_max is_key_char _ k); [|exact Hkey|reflexivity|].
  2:{ cbn [run]. cbn [Ascii.eqb Bool.eqb].
      erewrite (greedy_max is_white_space _ ws); [|exact Hws|exact Hstop|].
      2:{ cbn [run]. rewrite Hd.
          rewrite <- (append_nil_r v) at 1.
          erewrite (greedy_max is_dot _ v ""); [|exact Hline|reflexivity|].
          2:{ cbn [run at_eol]. reflexivity. }
          reflexivity. }
      reflexivity. }
  acc_simpl. cbn [append]. rewrite !append_assoc. reflexivity.
Qed.

(** What the pattern of the section headings matches. *)
Lemma section_run_inv (line : string) (r : string * list string) :
  run (terms section_line) false None line start_acc = Some r ->
  exists k ws,
    line = k ++ ":" ++ ws ++ "|" /\ k <> "" /\
    all_chars is_key_char k = true /\ all_chars is_white_space ws = true.
Proof.
  cbn [terms section_line run at_bol].
  destruct line as [|c line]; [discriminate|].
  destruct (is_key_char c) eqn:Hc; [|discriminate].
  intros H. apply greedy_inv in H as (x & y & -> & Hx & H).
  cbn [run] in H. destruct y as [|d y]; [discriminate|].
  destruct (Ascii.eqb ":" d) eqn:Hd; [|discriminate].
  apply Ascii.eqb_eq in Hd; subst d.
  apply greedy_inv in H as (x2 & y2 & -> & Hx2 & H).
  cbn [run] in H. destruct y2 as [|e y2]; [discriminate|].
  destruct (Ascii.eqb "|" e) eqn:He; [|discriminate].
  apply Ascii.eqb_eq in He; subst e.
  destruct y2 as [|f y2]; [|discriminate].
  exists (String c x), x2. repeat split.
  - discriminate.
  - cbn [all_chars]. now rewrite Hc, Hx.
  - exact Hx2.
Qed.

Lemma formatLine_key_value_aux (k ws v : string) :
  k <> "" -> all_chars is_key_char k = true ->
  all_chars is_white_space ws = true ->
  v <> "" -> stops is_white_space v = true -> single_line v = true ->
  formatLine (k ++ ":" ++ ws ++ v) = KeyValueRow k v.
Proof.
  intros Hk Hkey Hws Hv Hstop Hline. unfold formatLine.
  now rewrite (key_value_run k ws v Hk Hkey Hws Hv Hstop Hline).
Qed.

Lemma find_inv (p : Pattern) (s : string) :
  forall prev i k r,
    find p prev i s = Some (k, r) ->
    exists prev' s',
      run (terms p) (multiline p) prev' s' start_acc = Some r.
Proof.
  induction s as [|c s IH]; intros prev i k r H; cbn [find] in H.
  - destruct (run (terms p) (multiline p) prev "" start_acc) as [r'|] eqn:Hr;
      [|discriminate].
    injection H as <- <-. now exists prev, "".
  - destruct (run (terms p) (multiline p) prev (String c s) start_acc)
      as [r'|] eqn:Hr.
    + injection H as <- <-. now exists prev, (String c s).
    + exact (IH _ _ _ _ H).
Qed.

(** A pattern that begins with [^] and a literal matches only in a string
    that contains the literal. *)
Lemma find_contains (p : Pattern) (L : string) (ts : list Term) (s : string) :
  terms p = Bol :: lit L ++ ts ->
  forall prev i r, find p prev i s = Some r -> contains s L.
Proof.
  intros Ht. induction s as [|c s IH]; intros prev i r H; cbn [find] in H.
  - rewrite Ht in H. cbn [run] in H.
    destruct (at_bol (multiline p) prev); [|discriminate].
    destruct (run (lit L ++ ts) (multiline p) prev "" start_acc) as [r'|]
      eqn:Hr; [|discriminate].
    apply run_lit_inv in Hr as (s' & Hs & _). now exists "", s'.
  - destruct (run (terms p) (multiline p) prev (String c s) start_acc)
      as [r'|] eqn:Hr.
    + rewrite Ht in Hr. cbn [run] in Hr.
      destruct (at_bol (multiline p) prev); [|discriminate].
      apply run_lit_inv in Hr as (s' & Hs & _). now exists "", s'.
    + destruct (IH _ _ _ H) as (pre & post & ->).
      now exists (String c pre), post.
Qed.

Lemma match_pattern_contains (p : Pattern) (L : string) (ts : list Term)
  (s : string) :
  terms p = Bol :: lit L ++ ts ->
  ~ contains s L -> match_pattern p s = None.
Proof.
  intros Ht Hno. unfold match_pattern.
  destruct (find p None 0 s) as [r|] eqn:Hf; [|reflexivity].
  elim Hno. exact (find_contains p L ts s Ht _ _ _ Hf).
Qed.

Lemma indexOf_not_contained (s p : string) :
  ~ contains s p -> indexOf s p = None.
Proof.
  intros Hno. unfold indexOf.
  destruct (indexOf_from 0 s p) as [k|] eqn:Hk; [|reflexivity].
  apply indexOf_from_sound in Hk as [_ Hs].
  elim Hno. now exists (take (k - 0) s), (skip (k - 0 + String.length p) s).
Qed.

(** The group of the pattern of a single-line field: a text that is not
    empty and holds no line terminator. *)
Lemma field_line_inv (key : string) (s : string) (m : RegExpExecArray) :
  match_pattern (field_line key) s = Some m ->
  exists g, captures m = [g] /\ g <> "" /\ single_line g = true.
Proof.
  unfold match_pattern.
  destruct (find (field_line key) None 0 s) as [[k [m0 caps]]|] eqn:Hf;
    [|discriminate].
  intros [= <-]. cbn [captures].
  apply find_inv in Hf as (prev & s' & Hr).
  cbn [terms field_line multiline run] in Hr.
  destruct (at_bol true prev); [|discriminate].
  apply run_lit_inv in Hr as (s1 & _ & Hr).
  cbn [run] in Hr. apply greedy_inv in Hr as (x & y & _ & _ & Hr).
  cbn [run] in Hr. destruct y as [|c y]; [discriminate|].
  destruct (is_dot c) eqn:Hc; [|discriminate].
  apply greedy_inv in Hr as (x2 & y2 & _ & Hx2 & Hr).
  cbn [run] in Hr. destruct (at_eol true y2); [|discriminate].
  injection Hr as _ <-.
  exists (String c x2). repeat split.
  - acc_simpl. cbn [append]. reflexivity.
  - discriminate.
  - unfold single_line. cbn [all_chars]. now rewrite Hc, Hx2.
Qed.

Lemma digits_close_inv (prev : option ascii) (y : string) (a : Acc)
  (r : string * list string) :
  greedy is_digit (run [Close; Eol] true) prev y a = Some r ->
  exists d2,
    all_chars is_digit d2 = true /\
    snd r = (closed a
             ++ [match current a with
                 | Some g => (g ++ d2)%string
                 | None => EmptyString
                 end])%list.
Proof.
  intros H. apply greedy_inv in H as (d2 & y2 & _ & Hd2 & H).
  cbn [run] in H. destruct (at_eol true y2); [|discriminate].
  injection H as <-. exists d2. split; [exact Hd2|].
  cbn [snd]. acc_simpl. now destruct (current a).
Qed.

Lemma numeral_tail_inv (prev : option ascii) (y : string) (a : Acc)
  (r : string * list string) :
  run [Atom (Ascii.eqb ".") Opt; Atom is_digit Star; Close; Eol]
    true prev y a = Some r ->
  exists f d2,
    (f = "" \/ f = ".") /\ all_chars is_digit d2 = true /\
    snd r = (closed a
             ++ [match current a with
                 | Some g => (g ++ f ++ d2)%string
                 | None => EmptyString
                 end])%list.
Proof.
  assert (Hplain :
    run [Atom is_digit Star; Close; Eol] true prev y a = Some r ->
    exists f d2,
      (f = "" \/ f = ".") /\ all_chars is_digit d2 = true /\
      snd r = (closed a
               ++ [match current a with
                   | Some g => (g ++ f ++ d2)%string
                   | None => EmptyString
                   end])%list).
  { intros H.
    change (greedy is_digit (run [Close; Eol] true) prev y a = Some r) in H.
    apply digits_close_inv in H as (d2 & Hd2 & Hr).
    exists "", d2. repeat split; [now left | exact Hd2 | exact Hr]. }
  intros H.
  change (match y with
          | String c s' =>
              if Ascii.eqb "." c then
                match run [Atom is_digit Star; Close; Eol] true (Some c) s'
                        (push c a) with
                | Some r => Some r
                | None => run [Atom is_digit Star; Close; Eol] true prev y a
                end
              else run [Atom is_digit Star; Close; Eol] true prev y a
          | EmptyString => run [Atom is_digit Star; Close; Eol] true prev y a
          end = Some r) in H.
  destruct y as [|e y1]; [exact (Hplain H)|].
  destruct (Ascii.eqb "." e) eqn:He; [|exact (Hplain H)].
  apply Ascii.eqb_eq in He; subst e.
  destruct (run [Atom is_digit Star; Close; Eol] true (Some "."%char) y1
              (push "." a)) as [r'|] eqn:Hg; [|exact (Hplain H)].
  injection H as ->.
  change (greedy is_digit (run [Close; Eol] true) (Some "."%char) y1
            (push "." a) = Some r) in Hg.
  apply digits_close_inv in Hg as (d2 & Hd2 & Hr).
  exists ".", d2. repeat split; [now right | exact Hd2 |].
  rewrite Hr. cbn [push closed current].
  destruct (current a); [now rewrite append_assoc | reflexivity].
Qed.

(** The group of the pattern of [loop_interval_seconds]. *)
Lemma interval_line_inv (s : string) (m : RegExpExecArray) :
  match_pattern interval_line s = Some m ->
  exists g, captures m = [g] /\ decimal_numeral g.
Proof.
  unfold match_pattern.
  destruct (find interval_line None 0 s) as [[k [m0 caps]]|] eqn:Hf;
    [|discriminate].
  intros [= <-]. cbn [captures].
  apply find_inv in Hf as (prev & s' & Hr).
  change (terms interval_line)
    with (Bol :: lit "loop_interval_seconds:"
            ++ [Atom is_white_space Star; Open; Atom is_digit Plus;
                Atom (Ascii.eqb ".") Opt; Atom is_digit Star; Close; Eol])
    in Hr.
  cbn [multiline interval_line] in Hr.
  change (run (Bol :: ?ts) true prev s' start_acc)
    with (if at_bol true prev then run ts true prev s' start_acc else None)
    in Hr.
  destruct (at_bol true prev); [|discriminate].
  apply (run_lit_inv "loop_interval_seconds:") in Hr as (s1 & _ & Hr).
  change (greedy is_white_space
            (run [Open; Atom is_digit Plus; Atom (Ascii.eqb ".") Opt;
                  Atom is_digit Star; Close; Eol] true)
            (last_of prev "loop_interval_seconds:") s1
            (push_all "loop_interval_seconds:" start_acc)
          = Some (m0, caps)) in Hr.
  apply greedy_inv in Hr as (x & y & _ & _ & Hr).
  change (match y with
          | String c s' =>
              if is_digit c then
                greedy is_digit
                  (run [Atom (Ascii.eqb ".") Opt; Atom is_digit Star;
                        Close; Eol] true)
                  (Some c) s'
                  (push c (open_group
                             (push_all x
                                (push_all "loop_interval_seconds:"
                                   start_acc))))
              else None
          | EmptyString => None
          end = Some (m0, caps)) in Hr.
  destruct y as [|c y]; [discriminate|].
  destruct (is_digit c) eqn:Hc; [|discriminate].
  apply greedy_inv in Hr as (d1 & y1 & _ & Hd1 & Hr).
  apply numeral_tail_inv in Hr as (f & d2 & Hf & Hd2 & Hr).
  cbn [snd] in Hr. subst caps. acc_simpl.
  eexists. split; [reflexivity|].
  exists (String c d1), d2. repeat split.
  - cbn [append]. destruct Hf as [-> | ->]; [left | right]; reflexivity.
  - discriminate.
  - cbn [all_chars]. now rewrite Hc, Hd1.
  - exact Hd2.
Qed.

Lemma last_of_cons (prev : option ascii) (c : ascii) (s : string) :
  last_of prev (String c s) = last_of None (String c s).
Proof. reflexivity. Qed.

Lemma trimEnd_last (s : string) :
  match last_of None (trimEnd s) with
  | Some d => is_white_space d = false
  | None => True
  end.
Proof.
  induction s as [|c s IH]; [exact I|].
  cbn [trimEnd]. destruct (trimEnd s) as [|e t] eqn:Ht.
  - destruct (is_white_space c) eqn:Hc; [exact I | exact Hc].
  - exact IH.
Qed.

Lemma trimEnd_first (c : ascii) (s : string) :
  is_white_space c = false ->
  exists t, trimEnd (String c s) = String c t.
Proof.
  intros Hc. cbn [trimEnd]. destruct (trimEnd s) as [|e t].
  - rewrite Hc. now exists "".
  - now exists (String e t).
Qed.

Lemma trimStart_first (s : string) :
  stops is_white_space (trimStart s) = true.
Proof.
  induction s as [|c s IH]; [reflexivity|].
  cbn [trimStart]. destruct (is_white_space c) eqn:Hc; [exact IH|].
  cbn [stops]. now rewrite Hc.
Qed.

(** A trimmed string neither begins nor ends with white space. *)
Lemma trim_no_outer_space (s : string) : no_outer_space (trim s) = true.
Proof.
  unfold trim. pose proof (trimStart_first s) as Hfirst.
  destruct (trimStart s) as [|c r]; [reflexivity|].
  cbn [stops] in Hfirst. apply negb_true_iff in Hfirst.
  destruct (trimEnd_first c r Hfirst) as [t Ht].
  pose proof (trimEnd_last (String c r)) as Hlast. rewrite Ht in *.
  unfold no_outer_space. rewrite Hfirst. cbn [negb andb].
  destruct (last_of None (String c t)) as [d|]; [now rewrite Hlast|].
  reflexivity.
Qed.

Lemma all_chars_trimStart (cls : ascii -> bool) (s : string) :
  all_chars cls s = true -> all_chars cls (trimStart s) = true.
Proof.
  induction s as [|c s IH]; intros H; [reflexivity|].
  cbn [trimStart]. destruct (is_white_space c); [|exact H].
  cbn [all_chars] in H. apply andb_true_iff in H as [_ H]. now apply IH.
Qed.

Lemma all_chars_trimEnd (cls : ascii -> bool) (s : string) :
  all_chars cls s = true -> all_chars cls (trimEnd s) = true.
Proof.
  induction s as [|c s IH]; intros H; [reflexivity|].
  cbn [all_chars] in H. apply andb_true_iff in H as [Hc H].
  cbn [trimEnd]. specialize (IH H). destruct (trimEnd s) as [|e t].
  - destruct (is_white_space c); [reflexivity|].
    cbn [all_chars]. now rewrite Hc.
  - cbn [all_chars] in IH |- *. now rewrite Hc, IH.
Qed.

Lemma single_line_trim (s : string) :
  single_line s = true -> single_line (trim s) = true.
Proof.
  intros H. unfold single_line, trim.
  now apply all_chars_trimEnd, all_chars_trimStart.
Qed.

(** Containment of a literal, decided by [indexOf]. *)
Lemma occurs_literal_contains (s L : string) :
  contains s L -> JsString.truthy
                    (match indexOf s L with Some _ => "y" | None => "" end)
                  = true.
Proof.
  intros H.
  apply (RegExpFacts.occurs_literal {| literal := L; group := None |} s
           eq_refl) in H.
  unfold occurs in H.
  rewrite (RegExpFacts.search_literal {| literal := L; group := None |} 0 s
             eq_refl) in H.
  cbn [literal] in H. unfold indexOf.
  now destruct (indexOf_from 0 s L).
Qed.

Lemma find_here (p : Pattern) (prev : option ascii) (i : nat) (s : string)
  (r : string * list string) :
  run (terms p) (multiline p) prev s start_acc = Some r ->
  find p prev i s = Some (i, r).
Proof. intros H. destruct s; cbn [find]; now rewrite H. Qed.

(** A pattern that begins with [^] has no match that starts in a line
    before the start of which it does not match. *)
Lemma find_skip_line (p : Pattern) (ts : list Term) (rest : string) :
  terms p = Bol :: ts ->
  forall (line : string) (prev : option ascii) (i : nat),
    single_line line = true ->
    run (terms p) (multiline p) prev (line ++ String newline rest) start_acc
    = None ->
    find p prev i (line ++ String newline rest)
    = find p (Some newline) (i + String.length line + 1) rest.
Proof.
  intros Ht. induction line as [|c line IH]; intros prev i Hline Hrun.
  - cbn [append] in *. cbn [find]. rewrite Hrun.
    cbn [String.length]. f_equal. lia.
  - unfold single_line in Hline. cbn [all_chars] in Hline.
    apply andb_true_iff in Hline as [Hc Hline].
    cbn [append] in *. cbn [find]. rewrite Hrun.
    rewrite (IH (Some c) (S i) Hline).
    + cbn [String.length]. f_equal. lia.
    + rewrite Ht. cbn [run at_bol].
      unfold is_dot in Hc. apply negb_true_iff in Hc. rewrite Hc.
      now rewrite andb_false_r.
Qed.

(** The pattern of a single-line field at the start of a line: the group is
    the first text that is not white space after the key, to the end of
    its line. *)
Lemma field_line_run (key ws v tail : string) (prev : option ascii) :
  at_bol true prev = true ->
  all_chars is_white_space ws = true ->
  v <> "" -> stops is_white_space v = true -> single_line v = true ->
  stops is_dot tail = true ->
  run (terms (field_line key)) true prev (key ++ ws ++ v ++ tail) start_acc
  = Some (key ++ ws ++ v, [v]).
Proof.
  intros Hbol Hws Hv Hstop Hline Htail.
  destruct v as [|d v]; [congruence|].
  unfold single_line in Hline. cbn [all_chars] in Hline.
  apply andb_true_iff in Hline as [Hd Hline].
  cbn [terms field_line run]. rewrite Hbol, run_lit.
  cbn [run].
  erewrite (greedy_max is_white_space _ ws); [|exact Hws|exact Hstop|].
  2:{ cbn [run append]. rewrite Hd.
      erewrite (greedy_max is_dot _ v tail); [|exact Hline|exact Htail|].
      2:{ cbn [run]. destruct tail as [|e tail]; [reflexivity|].
          cbn [stops] in Htail. unfold is_dot in Htail.
          rewrite negb_involutive in Htail.
          cbn [at_eol andb]. rewrite Htail. reflexivity. }
      reflexivity. }
  acc_simpl. cbn [append]. now rewrite !append_assoc.
Qed.

Lemma match_pattern_found (p : Pattern) (s : string) (i : nat)
  (m0 : string) (caps : list string) :
  find p None 0 s = Some (i, (m0, caps)) ->
  match_pattern p s
  = Some {| matched := m0; captures := caps; index := i; input := s |}.
Proof. intros H. unfold match_pattern. now rewrite H. Qed.

Lemma trimStart_idem (s : string) : trimStart (trimStart s) = trimStart s.
Proof.
  induction s as [|c s IH]; [reflexivity|].
  cbn [trimStart]. destruct (is_white_space c) eqn:Hc; [exact IH|].
  cbn [trimStart]. now rewrite Hc.
Qed.

Lemma trimStart_split (s : string) :
  exists ws, s = ws ++ trimStart s /\ all_chars is_white_space ws = true.
Proof.
  induction s as [|c s IH]; [now exists ""|].
  cbn [trimStart]. destruct (is_white_space c) eqn:Hc; [|now exists ""].
  destruct IH as (ws & Hs & Hws). exists (String c ws).
  cbn [append all_chars]. rewrite Hc, Hws. now rewrite <- Hs.
Qed.

Lemma trimStart_space (a s : string) :
  all_chars is_white_space a = true -> trimStart (a ++ s) = trimStart s.
Proof.
  induction a as [|c a IH]; intros H; [reflexivity|].
  cbn [all_chars] in H. apply andb_true_iff in H as [Hc H].
  cbn [append trimStart]. rewrite Hc. now apply IH.
Qed.

Lemma trimEnd_space (b : string) :
  all_chars is_white_space b = true -> trimEnd b = "".
Proof.
  induction b as [|c b IH]; intros H; [reflexivity|].
  cbn [all_chars] in H. apply andb_true_iff in H as [Hc H].
  cbn [trimEnd]. now rewrite (IH H), Hc.
Qed.

Lemma trimEnd_append_space (x b : string) :
  all_chars is_white_space b = true -> trimEnd (x ++ b) = trimEnd x.
Proof.
  intros Hb. induction x as [|c x IH].
  - cbn [append trimEnd]. now apply trimEnd_space.
  - cbn [append trimEnd]. now rewrite IH.
Qed.

(** White space around a text does not change what [trim] gives. *)
Lemma trim_padded (a s b : string) :
  all_chars is_white_space a = true -> all_chars is_white_space b = true ->
  trim (a ++ s ++ b) = trim s.
Proof.
  intros Ha Hb. unfold trim. rewrite (trimStart_space a _ Ha).
  destruct (trimStart_split s) as (ws & Hs & Hws).
  rewrite Hs at 1. rewrite append_assoc, (trimStart_space ws _ Hws).
  pose proof (trimStart_first s) as Hfirst.
  destruct (trimStart s) as [|c t] eqn:Ht.
  - cbn [append]. rewrite (trimStart_space b "" Hb) || idtac.
    replace b with (b ++ "") by apply append_nil_r.
    now rewrite (trimStart_space b "" Hb).
  - cbn [stops] in Hfirst. apply negb_true_iff in Hfirst.
    cbn [append trimStart]. rewrite Hfirst.
    exact (trimEnd_append_space (String c t) b Hb).
Qed.

Lemma substring_middle (a b c : string) :
  substring (String.length a) (String.length (a ++ b)) (a ++ b ++ c) = b.
Proof.
  unfold substring. rewrite !length_append.
  rewrite (Nat.min_l (String.length a)) by lia.
  rewrite (Nat.min_l (String.length a + String.length b)) by lia.
  rewrite Nat.max_r, Nat.min_l by lia.
  rewrite skip_append.
  replace (String.length a + String.length b - String.length a)
    with (String.length b) by lia.
  apply take_append.
Qed.

Lemma digit_not_space (c : ascii) :
  is_digit c = true -> is_white_space c = false.
Proof.
  destruct c as [[] [] [] [] [] [] [] []]; vm_compute; intros H;
    solve [reflexivity | discriminate H].
Qed.

(** The pattern of [loop_interval_seconds] at the start of a line whose
    value is a decimal numeral that ends the line. *)
Lemma interval_line_run (ws g rest : string) (prev : option ascii) :
  at_bol true prev = true ->
  all_chars is_white_space ws = true ->
  decimal_numeral g ->
  run (terms interval_line) true prev
    ("loop_interval_seconds:" ++ ws ++ g ++ String newline rest) start_acc
  = Some ("loop_interval_seconds:" ++ ws ++ g, [g]).
Proof.
  intros Hbol Hws (d1 & d2 & Hg & Hne & Hd1 & Hd2).
  destruct d1 as [|c d1]; [congruence|].
  cbn [all_chars] in Hd1. apply andb_true_iff in Hd1 as [Hc Hd1].
  change (terms interval_line)
    with (Bol :: lit "loop_interval_seconds:"
            ++ [Atom is_white_space Star; Open; Atom is_digit Plus;
                Atom (Ascii.eqb ".") Opt; Atom is_digit Star; Close; Eol]).
  change (run (Bol :: ?ts) true prev ?s start_acc)
    with (if at_bol true prev then run ts true prev s start_acc else None).
  rewrite Hbol, run_lit.
  change (run (Atom is_white_space Star :: ?ts) true ?q ?s ?a)
    with (greedy is_white_space (run ts true) q s a).
  destruct Hg as [-> | ->].
  - erewrite (greedy_max is_white_space _ ws); [|exact Hws| |].
    2:{ cbn [append stops]. now rewrite (digit_not_space c Hc). }
    2:{ cbn [append run]. rewrite Hc.
        erewrite (greedy_max is_digit _ (d1 ++ d2));
          [|now rewrite all_chars_append, Hd1, Hd2|reflexivity|].
        2:{ reflexivity. }
        reflexivity. }
    acc_simpl. cbn [append]. now rewrite !append_assoc.
  - erewrite (greedy_max is_white_space _ ws); [|exact Hws| |].
    2:{ cbn [append stops]. now rewrite (digit_not_space c Hc). }
    2:{ cbn [append run]. rewrite Hc.
        rewrite (append_assoc d1 (String "." d2) (String newline rest)).
        erewrite (greedy_max is_digit _ d1); [|exact Hd1|reflexivity|].
        2:{ cbn [append]. cbv beta iota. cbn [Ascii.eqb Bool.eqb].
            erewrite (greedy_max is_digit _ d2 (String newline rest));
              [|exact Hd2|reflexivity|].
            2:{ reflexivity. }
            reflexivity. }
        reflexivity. }
    acc_simpl. cbn [append]. now rewrite !append_assoc.
Qed.

Lemma match_pattern_first_line (key ws v tail : string) :
  all_chars is_white_space ws = true ->
  v <> "" -> stops is_white_space v = true -> single_line v = true ->
  stops is_dot tail = true ->
  match_pattern (field_line key) (key ++ ws ++ v ++ tail)
  = Some {| matched := key ++ ws ++ v; captures := [v]; index := 0;
            input := key ++ ws ++ v ++ tail |}.
Proof.
  intros Hws Hv Hstop Hline Htail.
  apply match_pattern_found, find_here.
  now apply field_line_run.
Qed.

(** A pattern that begins with [^] and matches at the start of none of the
    first lines is searched from the line after them. *)
Lemma find_after_lines (p : Pattern) (ts : list Term) (rest : string) :
  terms p = Bol :: ts ->
  forall (lines : list string) (prev : option ascii) (i : nat),
    lines <> [] ->
    (forall line, In line lines ->
       single_line line = true /\
       forall prev' tail,
         run (terms p) (multiline p) prev' (line ++ String newline tail)
           start_acc = None) ->
    exists j, find p prev i (lines_then lines rest)
              = find p (Some newline) j rest.
Proof.
  intros Ht. induction lines as [|line lines IH]; intros prev i Hne Hall;
    [congruence|].
  destruct (Hall line (or_introl eq_refl)) as [Hline Hrun].
  cbn [lines_then].
  rewrite (find_skip_line p ts _ Ht line prev i Hline (Hrun _ _)).
  destruct lines as [|line' lines'].
  - cbn [lines_then]. now eexists.
  - apply IH; [discriminate|].
    intros l Hl. apply Hall. now right.
Qed.

(** A single-line field on a line of its own: the group is the value
    without the white space before it. *)
Lemma field_on_line (key f rest : string) (prev : option ascii) :
  at_bol true prev = true ->
  single_line f = true -> trimStart f <> "" ->
  run (terms (field_line key)) true prev
    (key ++ " " ++ f ++ String newline rest) start_acc
  = Some (key ++ " " ++ f, [trimStart f]).
Proof.
  intros Hbol Hline Htext.
  destruct (trimStart_split f) as (ws & Hf & Hws).
  rewrite Hf at 1 2.
  rewrite (append_assoc ws (trimStart f) (String newline rest)).
  rewrite <- (append_assoc " " ws (trimStart f ++ String newline rest)).
  rewrite (field_line_run key (" " ++ ws) (trimStart f)
             (String newline rest) prev Hbol).
  - now rewrite !append_assoc.
  - cbn [append all_chars]. now rewrite Hws.
  - exact Htext.
  - apply trimStart_first.
  - now apply all_chars_trimStart.
  - reflexivity.
Qed.

Lemma trim_trimStart (s : string) : trim (trimStart s) = trim s.
Proof. unfold trim. now rewrite trimStart_idem. Qed.

Lemma single_line_key (key f : string) :
  single_line key = true -> single_line f = true ->
  single_line (key ++ " " ++ f) = true.
Proof.
  intros Hk Hf. unfold single_line in *.
  now rewrite !all_chars_append, Hk, Hf.
Qed.


Lemma field_after_lines (key f : string) (before : list string)
  (after : string) :
  single_line f = true -> trimStart f <> "" ->
  (forall line, In line before ->
     single_line line = true /\
     forall prev' tail,
       run (terms (field_line key)) true prev' (line ++ String newline tail)
         start_acc = None) ->
  exists m,
    match_pattern (field_line key)
      (lines_then before (key ++ " " ++ f ++ String newline after)) = Some m
    /\ capture1 m = trimStart f.
Proof.
  intros Hline Htext Hbefore. destruct before as [|l ls].
  - cbn [lines_then]. eexists.
    split; [apply match_pattern_found, find_here; now apply field_on_line
           |reflexivity].
  - destruct (find_after_lines (field_line key) _
                (key ++ " " ++ f ++ String newline after) eq_refl
                (l :: ls) None 0) as [j Hj]; [discriminate|exact Hbefore|].
    unfold match_pattern. rewrite Hj.
    rewrite (find_here _ _ j _ _
               (field_on_line key f after (Some newline) eq_refl Hline
                  Htext)).
    eexists. split; reflexivity.
Qed.

Lemma interval_after_lines (g : string) (before : list string)
  (after : string) :
  decimal_numeral g ->
  (forall line, In line before ->
     single_line line = true /\
     forall prev' tail,
       run (terms interval_line) true prev' (line ++ String newline tail)
         start_acc = None) ->
  exists m,
    match_pattern interval_line
      (lines_then before
         ("loop_interval_seconds:" ++ " " ++ g ++ String newline after))
    = Some m
    /\ capture1 m = g.
Proof.
  intros Hg Hbefore. destruct before as [|l ls].
  - cbn [lines_then]. eexists.
    split; [apply match_pattern_found, find_here;
            now apply (interval_line_run " " g after None)
           |reflexivity].
  - destruct (find_after_lines interval_line _
                ("loop_interval_seconds:" ++ " " ++ g
                 ++ String newline after) eq_refl
                (l :: ls) None 0) as [j Hj]; [discriminate|exact Hbefore|].
    unfold match_pattern. rewrite Hj.
    rewrite (find_here _ _ j _ _
               (interval_line_run " " g after (Some newline) eq_refl
                  eq_refl Hg)).
    eexists. split; reflexivity.
Qed.

(** The lines of the other keys: no match of the pattern starts there. *)
Ltac other_lines :=
  let line := fresh "line" in
  let Hin := fresh "Hin" in
  intros line Hin; cbn [In] in Hin;
  repeat (destruct Hin as [<-|Hin]); try contradiction;
  (split;
   [apply single_line_key; [reflexivity|assumption]
   |let prev' := fresh "prev" in
    let tail := fresh "tail" in
    intros prev' tail;
    cbn [terms field_line interval_line];
    change (run (Bol :: ?ts) true prev' ?s start_acc)
      with (if at_bol true prev' then run ts true prev' s start_acc
            else None);
    destruct (at_bol true prev'); reflexivity]).

End PatternFacts.

(* ================================================================== *)
(** ** The rows of a generated agent, the streaming, the server address *)
(* ================================================================== *)

Module ComponentFacts.
Import JsString JsRegExp JsPattern GenerateAgent AppHeader.
Import PatternVocabulary Properties StringFacts PatternFacts.

(** X8. [formatAgentFile] shows a line made of a key of [a-z_] characters,
    a colon, white space and a value on the same line as a key and value
    row: the key, and the value from its first character that is not white
    space to the end of the line. *)
Theorem formatLine_key_value (k ws v : string) :
  k <> "" -> all_chars is_key_char k = true ->
  all_chars is_white_space ws = true ->
  v <> "" -> stops is_white_space v = true -> single_line v = true ->
  formatLine (k ++ ":" ++ ws ++ v) = KeyValueRow k v.
Proof.
  intros Hk Hkey Hws Hv Hstop Hline. unfold formatLine.
  now rewrite (key_value_run k ws v Hk Hkey Hws Hv Hstop Hline).
Qed.

Lemma formatLine_key_value_witness :
  formatLine ("model_name" ++ ":" ++ "  " ++ "gemini 2.0 ")
  = KeyValueRow "model_name" "gemini 2.0 ".
Proof.
  apply (formatLine_key_value "model_name" "  " "gemini 2.0 ");
    solve [discriminate | reflexivity].
Defined.

(** X9. [formatAgentFile] never shows the heading of a section: a line that
    the pattern of the headings matches, a key then a colon, white space
    and a bar, is matched by the pattern of the key and value rows, which
    is tried first, with the bar as its value. *)
Theorem formatLine_never_section (line : string) :
  (forall key, formatLine line <> SectionRow key) /\
  (forall m, match_pattern section_line line = Some m ->
             exists k, formatLine line = KeyValueRow k "|").
Proof.
  assert (Hkv : forall m, match_pattern section_line line = Some m ->
                          exists k, formatLine line = KeyValueRow k "|").
  { intros m Hs.
    rewrite (match_pattern_anchored section_line _ _ eq_refl eq_refl) in Hs.
    destruct (run [Open; Atom is_key_char Plus; Close;
                   Atom (Ascii.eqb ":") One; Atom is_white_space Star;
                   Atom (Ascii.eqb "|") One; Eol] false None line start_acc)
      as [r|] eqn:Hr; [|discriminate Hs].
    destruct (section_run_inv line r) as (k & ws & -> & Hk & Hkey & Hws).
    { cbn [terms section_line run at_bol]. exact Hr. }
    exists k.
    apply formatLine_key_value_aux; try assumption; try reflexivity.
    discriminate. }
  split; [|exact Hkv].
  intros key. unfold formatLine.
  destruct (match_pattern key_value_line line) as [m|] eqn:Hm.
  - destruct (Nat.leb 3 (S (List.length (captures m)))); discriminate.
  - destruct (match_pattern section_line line) as [m'|] eqn:Hs.
    + destruct (Hkv m' eq_refl) as [k Hrow].
      unfold formatLine in Hrow. rewrite Hm, Hs in Hrow.
      destruct (Nat.leb 2 (S (List.length (captures m')))); discriminate.
    + destruct (String.eqb (trim line) ""); discriminate.
Qed.

Lemma formatLine_never_section_witness :
  exists k, formatLine "system_prompt: |" = KeyValueRow k "|".
Proof.
  apply (proj2 (formatLine_never_section "system_prompt: |")
           {| matched := "system_prompt: |"; captures := ["system_prompt"];
              index := 0; input := "system_prompt: |" |}).
  reflexivity.
Defined.

Lemma split_no_separator (sep : ascii) (a : string) :
  includes sep a = false -> split sep a = [a].
Proof.
  induction a as [|c a IH]; intros H; [reflexivity|].
  cbn [includes] in H. apply orb_false_iff in H as [Hc Ha].
  cbn [split]. now rewrite Hc, (IH Ha).
Qed.

Lemma split_at_first (sep : ascii) (a b : string) :
  includes sep a = false ->
  split sep (a ++ String sep b) = a :: split sep b.
Proof.
  induction a as [|c a IH]; intros H.
  - cbn [append split]. now rewrite Ascii.eqb_refl.
  - cbn [includes] in H. apply orb_false_iff in H as [Hc Ha].
    cbn [append split]. now rewrite Hc, (IH Ha).
Qed.

Lemma includes_first (sep : ascii) (s : string) :
  includes sep s = true ->
  exists a b, s = a ++ String sep b /\ includes sep a = false.
Proof.
  induction s as [|c s IH]; intros H; [discriminate|].
  cbn [includes] in H.
  destruct (Ascii.eqb c sep) eqn:Hc.
  - apply Ascii.eqb_eq in Hc; subst c. now exists "", s.
  - destruct (IH H) as (a & b & -> & Ha).
    exists (String c a), b. cbn [includes]. now rewrite Hc, Ha.
Qed.

(** X10. [handleServerAddressChange] keeps the address typed in, and passes
    a host and a port on to the agent loops only for an address with a
    colon: the host is the text before the first colon, the port the text
    between the first colon and the second, or the end; what comes after a
    second colon is dropped. *)
Theorem handleServerAddressChange_spec (newAddress : string) :
  (includes ":" newAddress = false ->
   handleServerAddressChange newAddress = (newAddress, None)) /\
  (includes ":" newAddress = true ->
   exists host port rest,
     handleServerAddressChange newAddress
     = (newAddress, Some (host, Some port)) /\
     newAddress = host ++ ":" ++ port ++ rest /\
     includes ":" host = false /\ includes ":" port = false /\
     (rest = "" \/ exists r, rest = String ":" r)).
Proof.
  unfold handleServerAddressChange, host_and_port. split; intros H;
    rewrite H; [reflexivity|].
  destruct (includes_first _ _ H) as (host & tail & -> & Hhost).
  rewrite (split_at_first _ _ _ Hhost). cbn [nth nth_error].
  destruct (includes ":" tail) eqn:Htail.
  - destruct (includes_first _ _ Htail) as (port & r & -> & Hport).
    rewrite (split_at_first _ _ _ Hport). cbn [nth nth_error].
    exists host, port, (String ":" r). repeat split; try assumption.
    right. now exists r.
  - rewrite (split_no_separator _ _ Htail). cbn [nth nth_error].
    exists host, tail, "". rewrite append_nil_r.
    repeat split; try assumption. now left.
Qed.

Lemma handleServerAddressChange_spec_witness :
  exists host port rest,
    handleServerAddressChange "http://localhost:3838"
    = ("http://localhost:3838", Some (host, Some port)) /\
    "http://localhost:3838" = host ++ ":" ++ port ++ rest /\
    includes ":" host = false /\ includes ":" port = false /\
    (rest = "" \/ exists r, rest = String ":" r).
Proof.
  apply (proj2 (handleServerAddressChange_spec "http://localhost:3838")).
  reflexivity.
Defined.

Lemma take_all (n : nat) (s : string) :
  String.length s <= n -> take n s = s.
Proof.
  revert n. induction s as [|c s IH]; intros [|n] H; cbn [take];
    try reflexivity; cbn [String.length] in H; [lia|].
  rewrite IH; [reflexivity | lia].
Qed.

Lemma substring_from_start (n : nat) (s : string) :
  n <= String.length s -> substring 0 n s = take n s.
Proof.
  intros H. unfold substring.
  rewrite Nat.min_0_l, (Nat.min_l n _ H), Nat.min_0_l, Nat.max_0_l.
  cbn [skip]. now rewrite Nat.sub_0_r.
Qed.

(** One period of the timer after another. *)
Lemma stream_ticks_from (response : string) (n : nat) :
  forall (m : nat) (st : Streaming),
    streaming_at response m st ->
    streaming_at response (m + n) (stream_ticks response n st).
Proof.
  unfold streaming_at, streamingSpeed.
  induction n as [|n IH]; intros m st H.
  - now rewrite Nat.add_0_r.
  - replace (m + S n) with (S m + n) by lia. cbn [stream_ticks].
    destruct H as [(Hset & Hfake & Hci & Hvis & Hn)|(Hset & Hfake & Hvis & Hn)].
    + rewrite Hset. apply IH.
      unfold stream_tick, streamingSpeed. rewrite Hci, Hfake.
      destruct (Nat.leb (String.length response) (15 * m + 15)) eqn:Hend.
      * apply Nat.leb_le in Hend. right.
        cbn [visibleResponse interval_set isFakeStreaming currentIndex].
        repeat split. lia.
      * apply Nat.leb_gt in Hend. left.
        cbn [visibleResponse interval_set isFakeStreaming currentIndex].
        repeat split; try lia.
        rewrite substring_from_start by lia. f_equal. lia.
    + rewrite Hset.
      assert (Hstay : forall k, stream_ticks response k st = st).
      { intros [|k]; cbn [stream_ticks]; [reflexivity | now rewrite Hset]. }
      specialize (IH (S m) st). rewrite Hstay in IH. apply IH.
      right. repeat split; try assumption. lia.
Qed.

(** X11. The fake streaming of a response: after [n] periods of the timer
    the text shown is the first [15 n] characters of the response, the
    whole of it once that exceeds its length; the interval is cleared, and
    the streaming flag dropped, at the first period at which [15 n] reaches
    the length of the response. *)
Theorem fake_streaming_progress (response : string) (n : nat) :
  let st := stream_ticks response n streaming_start in
  visibleResponse st = take (streamingSpeed * n) response /\
  isFakeStreaming st = interval_set st /\
  (interval_set st = true <->
   n = 0 \/ streamingSpeed * n < String.length response).
Proof.
  pose proof (stream_ticks_from response n 0 streaming_start) as H.
  cbn [Nat.add] in H. cbv zeta.
  destruct H as [(Hset & Hfake & _ & Hvis & Hn)|(Hset & Hfake & Hvis & Hn)].
  - left. unfold streamingSpeed. cbn. repeat split. now left.
  - repeat split; try congruence.
  - repeat split; try congruence.
    + now rewrite take_all.
    + intros [-> | Hlt]; [|lia].
      unfold streamingSpeed in Hn. cbn in Hn.
      assert (Hlen : String.length response = 0) by lia.
      clear Hvis. cbn in Hset. discriminate Hset.
Qed.

(** X12. [parseAgentResponse] returns [null] for a response that lacks one
    of the section markers [system_prompt: |], [code: |] and [memory: ], or
    one of the keys [id:], [name:], [model_name:] and
    [loop_interval_seconds:]. *)
Theorem parseAgentResponse_missing_part (Number : Type)
  (parseFloat : string -> Number) (responseText part : string) :
  In part ["system_prompt: |"; "code: |"; "memory: "; "id:"; "name:";
           "model_name:"; "loop_interval_seconds:"] ->
  ~ contains responseText part ->
  parseAgentResponse parseFloat responseText = None.
Proof.
  intros Hin Hno. unfold parseAgentResponse.
  destruct Hin as [<-|[<-|[<-|[<-|[<-|[<-|[<-|[]]]]]]]].
  - now rewrite (indexOf_not_contained _ _ Hno).
  - rewrite (indexOf_not_contained _ _ Hno).
    now destruct (indexOf responseText "system_prompt: |").
  - rewrite (indexOf_not_contained _ _ Hno).
    now destruct (indexOf responseText "system_prompt: |"),
                 (indexOf responseText "code: |").
  - rewrite (match_pattern_contains (field_line "id:") "id:" _ _
               eq_refl Hno).
    now destruct (indexOf responseText "system_prompt: |"),
                 (indexOf responseText "code: |"),
                 (indexOf responseText "memory: ").
  - rewrite (match_pattern_contains (field_line "name:") "name:" _ _
               eq_refl Hno).
    destruct (indexOf responseText "system_prompt: |"),
             (indexOf responseText "code: |"),
             (indexOf responseText "memory: "); try reflexivity.
    now destruct (match_pattern (field_line "id:") responseText).
  - rewrite (match_pattern_contains (field_line "model_name:") "model_name:"
               _ _ eq_refl Hno).
    destruct (indexOf responseText "system_prompt: |"),
             (indexOf responseText "code: |"),
             (indexOf responseText "memory: "); try reflexivity.
    now destruct (match_pattern (field_line "id:") responseText),
                 (match_pattern (field_line "name:") responseText).
  - rewrite (match_pattern_contains interval_line "loop_interval_seconds:"
               _ _ eq_refl Hno).
    destruct (indexOf responseText "system_prompt: |"),
             (indexOf responseText "code: |"),
             (indexOf responseText "memory: "); try reflexivity.
    now destruct (match_pattern (field_line "id:") responseText),
                 (match_pattern (field_line "name:") responseText),
                 (match_pattern (field_line "model_name:") responseText).
Qed.

Lemma parseAgentResponse_missing_part_witness :
  parseAgentResponse (fun numeral : string => numeral)
    "id: a name: b model_name: c loop_interval_seconds: 5 code: | memory: "
  = None.
Proof.
  apply (parseAgentResponse_missing_part string (fun numeral => numeral)
           _ "system_prompt: |").
  - left. reflexivity.
  - intros H. apply occurs_literal_contains in H. discriminate H.
Defined.

(** X13. An agent that [parseAgentResponse] returns is stopped; its id,
    name, description and model name are on one line each; none of its
    texts, the system prompt and the code included, begins or ends with
    white space; and the text handed to [parseFloat] for the interval is
    made of digits, with at most one dot after the first digits. *)
Theorem parsed_agent_shape (Number : Type) (parseFloat : string -> Number)
  (responseText : string) (agent : CompleteAgent Number) (code : string) :
  parseAgentResponse parseFloat responseText = Some (agent, code) ->
  status agent = "stopped" /\
  (no_outer_space (id agent) = true /\ single_line (id agent) = true) /\
  (no_outer_space (name agent) = true /\ single_line (name agent) = true) /\
  (no_outer_space (description agent) = true /\
   single_line (description agent) = true) /\
  (no_outer_space (model_name agent) = true /\
   single_line (model_name agent) = true) /\
  no_outer_space (system_prompt agent) = true /\
  no_outer_space code = true /\
  exists numeral,
    loop_interval_seconds agent = parseFloat numeral /\
    decimal_numeral numeral.
Proof.
  unfold parseAgentResponse.
  destruct (indexOf responseText "system_prompt: |") as [sp|];
    [|discriminate].
  destruct (indexOf responseText "code: |") as [cs|]; [|discriminate].
  destruct (indexOf responseText "memory: ") as [ms|]; [|discriminate].
  destruct (match_pattern (field_line "id:") responseText) as [mi|] eqn:Hi;
    [|discriminate].
  destruct (match_pattern (field_line "name:") responseText) as [mn|] eqn:Hn;
    [|discriminate].
  destruct (match_pattern (field_line "model_name:") responseText)
    as [mm|] eqn:Hm; [|discriminate].
  destruct (match_pattern interval_line responseText) as [ml|] eqn:Hl;
    [|discriminate].
  intros [= <- <-].
  cbn [status id name description model_name system_prompt
       loop_interval_seconds].
  assert (Hfield : forall key m,
            match_pattern (field_line key) responseText = Some m ->
            no_outer_space (trim (capture1 m)) = true /\
            single_line (trim (capture1 m)) = true).
  { intros key m H. apply field_line_inv in H as (g & Hg & _ & Hline).
    unfold capture1. rewrite Hg. cbn [nth].
    split; [apply trim_no_outer_space | now apply single_line_trim]. }
  repeat split; try apply trim_no_outer_space;
    try (now apply (Hfield "id:")); try (now apply (Hfield "name:"));
    try (now apply (Hfield "model_name:")).
  - destruct (match_pattern (field_line "description:") responseText)
      as [md|] eqn:Hd; [now apply (Hfield "description:") | reflexivity].
  - destruct (match_pattern (field_line "description:") responseText)
      as [md|] eqn:Hd; [now apply (Hfield "description:") | reflexivity].
  - apply interval_line_inv in Hl as (g & Hg & Hnum).
    exists g. unfold capture1. rewrite Hg. now split.
Qed.

Lemma parsed_agent_shape_witness :
  let agent :=
    {| id := "screen_watcher"; name := "Screen Watcher";
       description := "Reads the screen"; status := "stopped";
       model_name := "gemini-2.0-flash";
       system_prompt := "You watch $SCREEN_OCR";
       loop_interval_seconds := "10.5" |} in
  status agent = "stopped" /\
  (no_outer_space (id agent) = true /\ single_line (id agent) = true) /\
  (no_outer_space (name agent) = true /\ single_line (name agent) = true) /\
  (no_outer_space (description agent) = true /\
   single_line (description agent) = true) /\
  (no_outer_space (model_name agent) = true /\
   single_line (model_name agent) = true) /\
  no_outer_space (system_prompt agent) = true /\
  no_outer_space "console.log(1);" = true /\
  exists numeral,
    loop_interval_seconds agent = numeral /\ decimal_numeral numeral.
Proof.
  apply (parsed_agent_shape string (fun numeral => numeral) sample_response).
  reflexivity.
Defined.

(** X14. A response that begins with the key [id:] followed only by white
    space up to a later line: whenever [parseAgentResponse] returns an
    agent, its [id] is the text of that later line, since the white space
    after the key runs over line ends. *)
Theorem field_value_after_blank_line (Number : Type)
  (parseFloat : string -> Number) (ws v tail : string)
  (agent : CompleteAgent Number) (code : string) :
  all_chars is_white_space ws = true ->
  v <> "" -> stops is_white_space v = true -> single_line v = true ->
  stops is_dot tail = true ->
  parseAgentResponse parseFloat ("id:" ++ ws ++ v ++ tail)
  = Some (agent, code) ->
  id agent = trim v.
Proof.
  intros Hws Hv Hstop Hline Htail. unfold parseAgentResponse.
  rewrite (match_pattern_first_line "id:" ws v tail Hws Hv Hstop Hline Htail).
  destruct (indexOf _ "system_prompt: |"); [|discriminate].
  destruct (indexOf _ "code: |"); [|discriminate].
  destruct (indexOf _ "memory: "); [|discriminate].
  destruct (match_pattern (field_line "name:") _); [|discriminate].
  destruct (match_pattern (field_line "model_name:") _); [|discriminate].
  destruct (match_pattern interval_line _); [|discriminate].
  now intros [= <- _].
Qed.

Lemma field_value_after_blank_line_witness :
  id {| id := "name: watcher"; name := "watcher"; description := "";
        status := "stopped"; model_name := "g"; system_prompt := "x";
        loop_interval_seconds := "5" |}
  = trim "name: watcher".
Proof.
  apply (field_value_after_blank_line string (fun numeral => numeral)
           nl "name: watcher"
           (nl ++ "model_name: g" ++ nl ++ "loop_interval_seconds: 5" ++ nl
            ++ "system_prompt: |" ++ nl ++ "x" ++ nl ++ "code: |" ++ nl
            ++ "y" ++ nl ++ "memory: ")
           _ "y"); try reflexivity.
  discriminate.
Defined.

(** The response whose line [id:] is blank is parsed, and the agent takes
    the line of the name for its [id]. *)
Example blank_id_parsed :
  option_map (fun r => id (fst r))
    (parseAgentResponse (fun numeral : string => numeral) blank_id_response)
  = Some "name: watcher".
Proof. reflexivity. Qed.

(** X15. A response in the layout the generator is asked for, one key per
    line and then the three sections, each marker first occurring at the
    start of its own line: [parseAgentResponse] returns the agent with
    every value trimmed, the numeral of the interval given to
    [parseFloat], the status [stopped], and the trimmed code. *)
Theorem parseAgentResponse_canonical (Number : Type)
  (parseFloat : string -> Number) (i n d m seconds sp code memory : string) :
  let head := response_head i n d m seconds in
  let response := canonical_response head sp code memory in
  (single_line i = true /\ trimStart i <> "") ->
  (single_line n = true /\ trimStart n <> "") ->
  (single_line d = true /\ trimStart d <> "") ->
  (single_line m = true /\ trimStart m <> "") ->
  decimal_numeral seconds ->
  indexOf response "system_prompt: |" = Some (String.length head) ->
  indexOf response "code: |"
  = Some (String.length (head ++ "system_prompt: |" ++ nl ++ sp ++ nl)) ->
  indexOf response "memory: "
  = Some (String.length (head ++ "system_prompt: |" ++ nl ++ sp ++ nl
                           ++ "code: |" ++ nl ++ code ++ nl)) ->
  parseAgentResponse parseFloat response
  = Some ({| id := trim i; name := trim n; description := trim d;
             status := "stopped"; model_name := trim m;
             system_prompt := trim sp;
             loop_interval_seconds := parseFloat seconds |},
          trim code).
Proof.
  intros head response [Hi Hi'] [Hn Hn'] [Hd Hd'] [Hm Hm'] Hsec Hsp Hcode Hmem.
  set (R5 := "system_prompt: |" ++ nl ++ sp ++ nl ++ "code: |" ++ nl
             ++ code ++ nl ++ "memory: " ++ memory).
  set (L1 := "id:" ++ " " ++ i).
  set (L2 := "name:" ++ " " ++ n).
  set (L3 := "description:" ++ " " ++ d).
  set (L4 := "model_name:" ++ " " ++ m).
  assert (Hlines : response
                   = lines_then [L1; L2; L3; L4]
                       ("loop_interval_seconds:" ++ " " ++ seconds
                        ++ String newline R5)).
  { unfold response, canonical_response, head, response_head, R5, nl,
      L1, L2, L3, L4.
    cbn [lines_then]. rewrite !append_assoc. reflexivity. }
  assert (H4 : response
               = lines_then [L1; L2; L3]
                   ("model_name:" ++ " " ++ m
                    ++ String newline
                         (lines_then ["loop_interval_seconds:" ++ " "
                                      ++ seconds] R5))).
  { rewrite Hlines. unfold L4. cbn [lines_then].
    rewrite !append_assoc. reflexivity. }
  assert (H3 : response
               = lines_then [L1; L2]
                   ("description:" ++ " " ++ d
                    ++ String newline
                         (lines_then [L4; "loop_interval_seconds:" ++ " "
                                          ++ seconds] R5))).
  { rewrite Hlines. unfold L3. cbn [lines_then].
    rewrite !append_assoc. reflexivity. }
  assert (H2 : response
               = lines_then [L1]
                   ("name:" ++ " " ++ n
                    ++ String newline
                         (lines_then [L3; L4; "loop_interval_seconds:" ++ " "
                                              ++ seconds] R5))).
  { rewrite Hlines. unfold L2. cbn [lines_then].
    rewrite !append_assoc. reflexivity. }
  assert (H1 : response
               = lines_then []
                   ("id:" ++ " " ++ i
                    ++ String newline
                         (lines_then [L2; L3; L4;
                                      "loop_interval_seconds:" ++ " "
                                      ++ seconds] R5))).
  { rewrite Hlines. unfold L1. cbn [lines_then].
    rewrite !append_assoc. reflexivity. }
  destruct (field_after_lines "id:" i []
              (lines_then [L2; L3; L4; "loop_interval_seconds:" ++ " "
                                       ++ seconds] R5) Hi Hi')
    as (m1 & Hm1 & Hc1);
    [intros ? []|].
  rewrite <- H1 in Hm1.
  destruct (field_after_lines "name:" n [L1]
              (lines_then [L3; L4; "loop_interval_seconds:" ++ " "
                                   ++ seconds] R5) Hn Hn') as (m2 & Hm2 & Hc2);
    [unfold L1; other_lines|].
  rewrite <- H2 in Hm2.
  destruct (field_after_lines "description:" d [L1; L2]
              (lines_then [L4; "loop_interval_seconds:" ++ " " ++ seconds]
                 R5) Hd Hd')
    as (m3 & Hm3 & Hc3); [unfold L1, L2; other_lines|].
  rewrite <- H3 in Hm3.
  destruct (field_after_lines "model_name:" m [L1; L2; L3]
              (lines_then ["loop_interval_seconds:" ++ " " ++ seconds] R5)
              Hm Hm')
    as (m4 & Hm4 & Hc4); [unfold L1, L2, L3; other_lines|].
  rewrite <- H4 in Hm4.
  destruct (interval_after_lines seconds [L1; L2; L3; L4] R5 Hsec)
    as (m5 & Hm5 & Hc5); [unfold L1, L2, L3, L4; other_lines|].
  rewrite <- Hlines in Hm5.
  unfold parseAgentResponse.
  rewrite Hsp, Hcode, Hmem, Hm1, Hm2, Hm3, Hm4, Hm5.
  rewrite Hc1, Hc2, Hc3, Hc4, Hc5, !trim_trimStart.
  assert (Hs1 : substring (String.length head
                           + String.length "system_prompt: |")
                  (String.length
                     (head ++ "system_prompt: |" ++ nl ++ sp ++ nl))
                  response
                = nl ++ sp ++ nl).
  { rewrite <- length_append.
    replace (head ++ "system_prompt: |" ++ nl ++ sp ++ nl)
      with ((head ++ "system_prompt: |") ++ nl ++ sp ++ nl)
      by now rewrite !append_assoc.
    replace response
      with ((head ++ "system_prompt: |") ++ (nl ++ sp ++ nl)
            ++ "code: |" ++ nl ++ code ++ nl ++ "memory: " ++ memory)
      by (unfold response, canonical_response; now rewrite !append_assoc).
    apply substring_middle. }
  assert (Hs2 : substring
                  (String.length
                     (head ++ "system_prompt: |" ++ nl ++ sp ++ nl)
                   + String.length "code: |")
                  (String.length
                     (head ++ "system_prompt: |" ++ nl ++ sp ++ nl
                      ++ "code: |" ++ nl ++ code ++ nl))
                  response
                = nl ++ code ++ nl).
  { rewrite <- length_append.
    replace (head ++ "system_prompt: |" ++ nl ++ sp ++ nl
             ++ "code: |" ++ nl ++ code ++ nl)
      with (((head ++ "system_prompt: |" ++ nl ++ sp ++ nl) ++ "code: |")
            ++ nl ++ code ++ nl)
      by now rewrite !append_assoc.
    replace response
      with (((head ++ "system_prompt: |" ++ nl ++ sp ++ nl) ++ "code: |")
            ++ (nl ++ code ++ nl) ++ "memory: " ++ memory)
      by (unfold response, canonical_response; now rewrite !append_assoc).
    apply substring_middle. }
  rewrite Hs1, Hs2.
  now rewrite !(trim_padded nl _ nl eq_refl eq_refl).
Qed.

Lemma parseAgentResponse_canonical_witness :
  parseAgentResponse (fun numeral : string => numeral) sample_response
  = Some ({| id := "screen_watcher"; name := "Screen Watcher";
             description := "Reads the screen"; status := "stopped";
             model_name := "gemini-2.0-flash";
             system_prompt := "You watch $SCREEN_OCR";
             loop_interval_seconds := "10.5" |},
          "console.log(1);").
Proof.
  apply (parseAgentResponse_canonical string (fun numeral => numeral)
           "screen_watcher" "Screen Watcher " "  Reads the screen"
           "gemini-2.0-flash" "10.5" "  You watch $SCREEN_OCR"
           "  console.log(1);" "none");
    try reflexivity; try (split; [reflexivity|discriminate]).
  exists "10", "5". repeat split; try reflexivity.
  - now right.
  - discriminate.
Defined.

End ComponentFacts.
